(** * Schema-driven harmonization and validation of tabular data

    A shallow embedding of [DataHarmonizer] and [DataValidator] from
    [public/code/data-validation-pipeline-w-yaml-polars-py.py].

    The Python classes interpret a YAML column schema against a polars
    [DataFrame].  The schema and the two reports are modelled with the
    shapes the code gives them (ordered dictionaries, lists of string
    records); the data frame is modelled column-wise; the parts of polars
    whose behaviour is fixed by the columnar engine rather than by this
    program (non-strict casting, the order of [unique], comparison of a
    cell with a YAML literal, the regular-expression engine) are the
    fields of the [Backend] class. *)

From stdpp Require Import base decidable option list gmap strings pretty.

Open Scope string_scope.
Open Scope list_scope.

(** ** Physical types and cell values *)

(** The classes of polars data types the program names in its tables,
    plus [OtherClass] for the ones it never mentions. *)
Inductive DTypeClass :=
  | StringClass | CategoricalClass | EnumClass
  | Float32Class | Float64Class | DecimalClass
  | Int8Class | Int16Class | Int32Class | Int64Class
  | UInt8Class | UInt16Class | UInt32Class | UInt64Class
  | DateClass | DatetimeClass | DurationClass | TimeClass
  | BooleanClass
  | OtherClass (class_name : string).

#[global] Instance DTypeClass_eq_dec : EqDecision DTypeClass.
Proof. solve_decision. Defined.

(** The data type of a column.  A parametrised type carries its
    parameters as the engine prints them after the class name, for
    example ["(time_unit='us', time_zone=None)"] for a [Datetime];
    [OtherDType] stands for the types of the remaining classes, with the
    class name and the whole printed form. *)
Inductive DType :=
  | String_ | Categorical (params : string) | Enum (params : string)
  | Float32 | Float64 | Decimal (params : string)
  | Int8 | Int16 | Int32 | Int64
  | UInt8 | UInt16 | UInt32 | UInt64
  | Date | Datetime (params : string) | Duration (params : string) | Time
  | Boolean
  | OtherDType (class_name repr : string).

#[global] Instance DType_eq_dec : EqDecision DType.
Proof. solve_decision. Defined.

(** The class a data type is an instance of: what a comparison of a
    column's type with a class of the tables looks at. *)
Definition dtype_class (t : DType) : DTypeClass :=
  match t with
  | String_ => StringClass | Categorical _ => CategoricalClass
  | Enum _ => EnumClass
  | Float32 => Float32Class | Float64 => Float64Class
  | Decimal _ => DecimalClass
  | Int8 => Int8Class | Int16 => Int16Class | Int32 => Int32Class
  | Int64 => Int64Class
  | UInt8 => UInt8Class | UInt16 => UInt16Class | UInt32 => UInt32Class
  | UInt64 => UInt64Class
  | Date => DateClass | Datetime _ => DatetimeClass
  | Duration _ => DurationClass | Time => TimeClass
  | Boolean => BooleanClass
  | OtherDType class_name _ => OtherClass class_name
  end.

(** [str(dtype)], as interpolated into report messages. *)
Definition dtype_name (t : DType) : string :=
  match t with
  | String_ => "String"
  | Categorical params => "Categorical" ++ params
  | Enum params => "Enum" ++ params
  | Float32 => "Float32" | Float64 => "Float64"
  | Decimal params => "Decimal" ++ params
  | Int8 => "Int8" | Int16 => "Int16" | Int32 => "Int32" | Int64 => "Int64"
  | UInt8 => "UInt8" | UInt16 => "UInt16" | UInt32 => "UInt32"
  | UInt64 => "UInt64"
  | Date => "Date"
  | Datetime params => "Datetime" ++ params
  | Duration params => "Duration" ++ params
  | Time => "Time"
  | Boolean => "Boolean"
  | OtherDType _ repr => repr
  end.

(** A scalar: what a YAML literal in the schema or a non-null cell of a
    column holds.  [VOther] stands for the scalars whose payload the
    program never inspects (floats, temporal values), kept by their
    printed form. *)
Inductive Value :=
  | VInt (z : Z)
  | VStr (s : string)
  | VBool (b : bool)
  | VOther (repr : string).

#[global] Instance Value_eq_dec : EqDecision Value.
Proof. solve_decision. Defined.

(** A cell is a value or null ([None]). *)
Definition Cell := option Value.

(** Python's [str(v)], used by [", ".join(map(str, examples))] and by the
    f-strings. *)
Definition py_str (v : Value) : string :=
  match v with
  | VInt z => pretty z
  | VStr s => s
  | VBool true => "True"
  | VBool false => "False"
  | VOther repr => repr
  end.

(** [isinstance(x, str)] *)
Definition isinstance_str (v : Value) : bool :=
  match v with VStr _ => true | _ => false end.

(** ** Data frames *)

Record Series := mkSeries {
  name : string;
  dtype : DType;
  values : list Cell;
}.

(** A [pl.DataFrame]: its columns, in order. *)
Definition DataFrame := list Series.

(** [df.columns] *)
Definition columns (df : DataFrame) : list string := map name df.

(** [df[col]]; [None] stands for polars' [ColumnNotFoundError]. *)
Fixpoint get_column (df : DataFrame) (col : string) : option Series :=
  match df with
  | [] => None
  | s :: rest => if decide (name s = col) then Some s else get_column rest col
  end.

(** [len(df)]: the number of rows. *)
Definition height (df : DataFrame) : nat :=
  match df with
  | [] => 0
  | s :: _ => length (values s)
  end.

(** The shape invariant polars maintains: all columns have the same
    number of rows. *)
Definition wf_df (df : DataFrame) : Prop :=
  Forall (fun s => length (values s) = height df) df.

(** [series.null_count()] *)
Definition null_count (s : Series) : nat :=
  length (filter (fun c : Cell => c = None) (values s)).

(** [df.rename(mapping)]: keys are old names, values new names; columns
    that are not keys pass through. *)
Definition rename (mapping : gmap string string) (df : DataFrame) : DataFrame :=
  map (fun s => match mapping !! name s with
                | Some new => mkSeries new (dtype s) (values s)
                | None => s
                end) df.

(** ** The columnar engine *)

Class Backend := {
  (** [series.cast(target, strict=False)] on the cells of a column of the
      given type, when the engine has a conversion between the two types:
      values that cannot be converted become null.  The casts the engine
      refuses are [cast_raises] of the class [Raises] below. *)
  cast_values : DType -> DType -> list Cell -> list Cell;
  (** [series.unique().to_list()]: the distinct cells, in an order the
      engine chooses. *)
  unique : list Cell -> list Cell;
  unique_NoDup : forall l, NoDup (unique l);
  unique_elem_of : forall l c, c ∈ unique l <-> c ∈ l;
  (** [cell < literal] and [cell > literal] on a non-null cell. *)
  value_lt : Value -> Value -> bool;
  value_gt : Value -> Value -> bool;
  (** [cell.str.contains(pattern)] on a non-null text cell. *)
  str_contains : string -> string -> bool;
}.

(** ** The schema *)

(** The properties of one schema column; a field is [None] when its key
    is absent from the column's mapping. *)
Record Props := mkProps {
  p_type : option string;
  p_aliases : option (list string);
  p_optional : option bool;
  p_range : option (Value * Value);
  p_allowed_value : option (list Value);
  p_not_allowed_value : option (list Value);
  p_regex : option string;
}.

(** [self.schema]: a dictionary from canonical column name to properties,
    in declaration order. *)
Definition Schema := list (string * Props).

(** Dictionary keys are unique. *)
Definition wf_schema (schema : Schema) : Prop := NoDup (map fst schema).

(** ** Reports *)

(** One row of the harmonization report. *)
Record ActionLog := mkAction {
  action : string;
  column : string;
  details : string;
}.

#[global] Instance ActionLog_eq_dec : EqDecision ActionLog.
Proof. solve_decision. Defined.

(** One row of the validation report. *)
Record Finding := mkFinding {
  variable : string;
  check : string;
  description : string;
  examples : string;
}.

#[global] Instance Finding_eq_dec : EqDecision Finding.
Proof. solve_decision. Defined.

(** ** Schema documents and construction *)

(** The exceptions construction can end in. *)
Inductive PyError :=
  | ValueError (msg : string)
  | AttributeError (msg : string).

(** What a top-level key of the schema document holds: a mapping from
    column names to their properties, or anything else (a scalar, a
    sequence, null). *)
Inductive TopValue :=
  | TVDict (schema : Schema)
  | TVOther (type_name : string).

(** What [yaml.safe_load] returns: a mapping, or a node of another Python
    type (["NoneType"] for an empty document, ["list"], ["str"], ...). *)
Inductive YamlDocument :=
  | YamlMapping (items : list (string * TopValue))
  | YamlNotMapping (type_name : string).

(** What reading a path yields: [open] raises, [yaml.safe_load] raises, or
    a document is returned.  [cause] is the text of the exception. *)
Inductive LoadOutcome :=
  | OpenFails (cause : string)
  | ParseFails (cause : string)
  | Loaded (doc : YamlDocument).

(** The file system, as the loader sees it. *)
Definition FileSystem := string -> LoadOutcome.

(** [dict.get(key, default)] on the association list of a mapping. *)
Fixpoint dict_get (items : list (string * TopValue)) (key : string)
    (dflt : TopValue) : TopValue :=
  match items with
  | [] => dflt
  | (k, v) :: rest => if decide (k = key) then v else dict_get rest key dflt
  end.

(** [_load_schema(schema_path)], the same in both classes. *)
Definition load_schema (fs : FileSystem) (schema_path : string)
    : PyError + YamlDocument :=
  match fs schema_path with
  | OpenFails e => inl (ValueError ("Failed to load schema: " ++ e))
  | ParseFails e => inl (ValueError ("Failed to load schema: " ++ e))
  | Loaded doc => inr doc
  end.

(** [self.schema = self._load_schema(schema_path).get("schema", {})] *)
Definition init_schema (fs : FileSystem) (schema_path : string)
    : PyError + TopValue :=
  match load_schema fs schema_path with
  | inl e => inl e
  | inr (YamlMapping items) => inr (dict_get items "schema" (TVDict []))
  | inr (YamlNotMapping type_name) =>
      inl (AttributeError ("'" ++ type_name ++ "' object has no attribute 'get'"))
  end.

(** [self.schema.items()] *)
Definition schema_items (self_schema : TopValue) : PyError + Schema :=
  match self_schema with
  | TVDict schema => inr schema
  | TVOther type_name =>
      inl (AttributeError
             ("'" ++ type_name ++ "' object has no attribute 'items'"))
  end.

(** ** DataHarmonizer *)

Module DataHarmonizer.

(** [_load_schema] *)
Definition _load_schema := load_schema.

(** [__init__]: the value of [self.schema]. *)
Definition __init__ := init_schema.

(** [self.type_map] *)
Definition type_map (type_str : option string) : option DType :=
  match type_str with
  | Some "string" => Some String_
  | Some "float" => Some Float64
  | Some "integer" => Some Int64
  | Some "date" => Some Date
  | Some "boolean" => Some Boolean
  | _ => None
  end.

(** The inner loop of step 1: scan the aliases in order and stop at the
    first one found among the table's columns. *)
Fixpoint scan_aliases (df_cols : gset string) (col : string)
    (aliases : list string)
    (st : gmap string string * list ActionLog)
    : gmap string string * list ActionLog :=
  match aliases with
  | [] => st
  | alias :: rest =>
      if decide (alias ∈ df_cols) then
        (<[alias := col]> (fst st),
         snd st ++ [mkAction "Rename" col ("Renamed from '" ++ alias ++ "'")])
      else scan_aliases df_cols col rest st
  end.

(** One iteration of the outer loop of step 1. *)
Definition resolve_column (df_cols : gset string)
    (st : gmap string string * list ActionLog) (entry : string * Props)
    : gmap string string * list ActionLog :=
  let '(col, props) := entry in
  if decide (col ∈ df_cols) then st
  else scan_aliases df_cols col (default [] (p_aliases props)) st.

(** Step 1 up to the batch rename: the rename map and the log. *)
Definition resolve_renames (schema : Schema) (df : DataFrame)
    : gmap string string * list ActionLog :=
  foldl (resolve_column (list_to_set (columns df))) (∅, []) schema.

(** [if rename_map: df = df.rename(rename_map)] *)
Definition apply_renames (rename_map : gmap string string) (df : DataFrame)
    : DataFrame :=
  if decide (rename_map = ∅) then df else rename rename_map df.

Section with_backend.
Context `{Backend}.

(** [df.with_columns(pl.col(col).cast(target, strict=False))] *)
Definition cast_column (col : string) (target : DType) (df : DataFrame)
    : DataFrame :=
  map (fun s => if decide (name s = col)
                then mkSeries (name s) target
                       (cast_values (dtype s) target (values s))
                else s) df.

(** One iteration of the loop of step 2. *)
Definition cast_step (st : DataFrame * list ActionLog)
    (entry : string * Props) : DataFrame * list ActionLog :=
  let '(col, props) := entry in
  let '(df, report_logs) := st in
  match get_column df col with
  | None => st
  | Some series =>
      let target_type_str := p_type props in
      match type_map target_type_str with
      | None => st
      | Some target_pl_type =>
          let current_type := dtype series in
          if decide (current_type ≠ target_pl_type) then
            let nulls_before := null_count series in
            let df' := cast_column col target_pl_type df in
            let nulls_after :=
              from_option null_count 0%nat (get_column df' col) in
            let failed_rows := (Z.of_nat nulls_after - Z.of_nat nulls_before)%Z in
            if decide (0 < failed_rows)%Z then
              (df', report_logs ++
                 [mkAction "Cast Fail" col
                    ("Failed to cast " ++ pretty failed_rows ++ " rows to "
                       ++ default "None" target_type_str)])
            else
              (df', report_logs ++
                 [mkAction "Cast Success" col
                    ("Cast from " ++ dtype_name current_type ++ " to "
                       ++ default "None" target_type_str)])
          else st
      end
  end.

(** [harmonize(df)] on a schema dictionary: the transformed table and the
    report. *)
Definition harmonize (schema : Schema) (df : DataFrame)
    : DataFrame * list ActionLog :=
  let '(rename_map, report_logs) := resolve_renames schema df in
  let df := apply_renames rename_map df in
  foldl cast_step (df, report_logs) schema.

(** [harmonize(df)] on whatever [__init__] stored in [self.schema]. *)
Definition harmonize_self (self_schema : TopValue) (df : DataFrame)
    : PyError + DataFrame * list ActionLog :=
  match schema_items self_schema with
  | inl e => inl e
  | inr schema => inr (harmonize schema df)
  end.

End with_backend.
End DataHarmonizer.

(** ** DataValidator *)

(** *** Row filters

    A polars predicate evaluates, per row, to true, false or null, and
    [df.filter] keeps the rows where it is true.  Comparisons, [is_in] and
    [str.contains] are null on a null cell; [|] and [~] are Kleene's. *)

Definition expr_or (a b : option bool) : option bool :=
  match a, b with
  | Some true, _ | _, Some true => Some true
  | Some false, Some false => Some false
  | _, _ => None
  end.

Definition expr_not (a : option bool) : option bool := negb <$> a.

(** [expr.is_in(literals)] on one cell, for a list the engine accepts
    against the compared column; the lists it refuses are [is_in_raises]
    of the class [Raises] below. *)
Definition is_in (literals : list Value) (c : Cell) : option bool :=
  (fun v => bool_decide (v ∈ literals)) <$> c.

(** [expr.cast(pl.String)] on one cell. *)
Definition cast_string (c : Cell) : Cell :=
  (fun v => match v with
            | VInt z => VStr (pretty z)
            | VStr s => VStr s
            | VBool true => VStr "true"
            | VBool false => VStr "false"
            | VOther repr => VStr repr
            end) <$> c.

(** Keep the positions of [l] at which [mask] is true. *)
Fixpoint select {A} (mask : list bool) (l : list A) : list A :=
  match mask, l with
  | b :: mask', x :: l' => if b then x :: select mask' l' else select mask' l'
  | _, _ => []
  end.

(** [df.filter(pred)] for a predicate [pred] over the cells of column
    [col]. *)
Definition df_filter (pred : Cell -> option bool) (col : Series)
    (df : DataFrame) : DataFrame :=
  let mask := map (fun c => bool_decide (pred c = Some true)) (values col) in
  map (fun s => mkSeries (name s) (dtype s) (select mask (values s))) df.

Module DataValidator.

(** [_load_schema] *)
Definition _load_schema := load_schema.

(** [__init__]: the value of [self.schema]. *)
Definition __init__ := init_schema.

(** [self.polars_dtypes] *)
Definition polars_dtypes (type_str : option string)
    : option (list DTypeClass) :=
  match type_str with
  | Some "string" => Some [StringClass; CategoricalClass; EnumClass]
  | Some "float" => Some [Float32Class; Float64Class; DecimalClass]
  | Some "integer" =>
      Some [Int8Class; Int16Class; Int32Class; Int64Class;
            UInt8Class; UInt16Class; UInt32Class; UInt64Class]
  | Some "date" => Some [DateClass; DatetimeClass; DurationClass; TimeClass]
  | Some "boolean" => Some [BooleanClass]
  | _ => None
  end.

Section with_backend.
Context `{Backend}.

(** [_get_example_msg]: up to three unique examples; ["N/A"] when the
    column cannot be read. *)
Definition _get_example_msg (invalid_df : DataFrame) (col_name : string)
    : string :=
  match get_column invalid_df col_name with
  | None => "N/A"
  | Some series =>
      let invalid_vals := omap id (unique (values series)) in
      let count := length invalid_vals in
      let examples := take 3 invalid_vals in
      let example_str := String.concat ", " (map py_str examples) in
      if decide (3 < count)
      then example_str ++ ", ... (+" ++ pretty (count - 3) ++ " more)"
      else example_str
  end.

(** The row predicates of the four quality checks. *)
Definition range_pred (low high : Value) (c : Cell) : option bool :=
  expr_or ((fun v => value_lt v low) <$> c) ((fun v => value_gt v high) <$> c).

(** [any(isinstance(x, str) for x in literals) and actual_dtype != pl.String] *)
Definition coerce_to_text (literals : list Value) (actual_dtype : DType)
    : bool :=
  existsb isinstance_str literals && bool_decide (actual_dtype ≠ String_).

Definition check_expr (literals : list Value) (actual_dtype : DType)
    (c : Cell) : Cell :=
  if coerce_to_text literals actual_dtype then cast_string c else c.

Definition allowed_pred (allowed : list Value) (actual_dtype : DType)
    (c : Cell) : option bool :=
  expr_not (is_in allowed (check_expr allowed actual_dtype c)).

Definition forbidden_pred (forbidden : list Value) (actual_dtype : DType)
    (c : Cell) : option bool :=
  is_in forbidden (check_expr forbidden actual_dtype c).

Definition regex_pred (pattern : string) (c : Cell) : option bool :=
  expr_not ((fun v => str_contains (py_str v) pattern) <$> c).

Definition type_check (col : string) (props : Props) (series : Series)
    : list Finding :=
  let expected_key := p_type props in
  let actual_dtype := dtype series in
  match polars_dtypes expected_key with
  | Some valid_types =>
      if decide (dtype_class actual_dtype ∉ valid_types) then
        [mkFinding col "Type"
           ("Expected " ++ default "None" expected_key ++ ", got "
              ++ dtype_name actual_dtype)
           "N/A"]
      else []
  | None => []
  end.

Definition range_check (df : DataFrame) (col : string) (props : Props)
    (series : Series) : list Finding :=
  match p_range props with
  | Some (low, high) =>
      let invalid := df_filter (range_pred low high) series df in
      if decide (height invalid ≠ 0) then
        [mkFinding col "Range"
           (pretty (height invalid) ++ " rows outside [" ++ py_str low ++ ", "
              ++ py_str high ++ "]")
           (_get_example_msg invalid col)]
      else []
  | None => []
  end.

Definition allowed_check (df : DataFrame) (col : string) (props : Props)
    (series : Series) : list Finding :=
  match p_allowed_value props with
  | Some allowed =>
      let invalid := df_filter (allowed_pred allowed (dtype series)) series df in
      if decide (height invalid ≠ 0) then
        [mkFinding col "Allowed Values"
           (pretty (height invalid) ++ " rows have invalid values")
           (_get_example_msg invalid col)]
      else []
  | None => []
  end.

Definition forbidden_check (df : DataFrame) (col : string) (props : Props)
    (series : Series) : list Finding :=
  match p_not_allowed_value props with
  | Some forbidden =>
      let invalid :=
        df_filter (forbidden_pred forbidden (dtype series)) series df in
      if decide (height invalid ≠ 0) then
        [mkFinding col "Forbidden Values"
           (pretty (height invalid) ++ " rows found in blacklist")
           (_get_example_msg invalid col)]
      else []
  | None => []
  end.

Definition regex_check (df : DataFrame) (col : string) (props : Props)
    (series : Series) : list Finding :=
  match p_regex props with
  | Some pattern =>
      if decide (dtype series = String_) then
        let invalid := df_filter (regex_pred pattern) series df in
        if decide (height invalid ≠ 0) then
          [mkFinding col "Regex"
             (pretty (height invalid) ++ " rows mismatch pattern '" ++ pattern
                ++ "'")
             (_get_example_msg invalid col)]
        else []
      else []
  | None => []
  end.

(** The body of the loop of [validate]: the findings one schema column
    appends to [errors]. *)
Definition validate_column (df : DataFrame) (entry : string * Props)
    : list Finding :=
  let '(col, props) := entry in
  match get_column df col with
  | None =>
      if negb (default false (p_optional props)) then
        [mkFinding col "Existence" "Column not found" "N/A"]
      else []
  | Some series =>
      type_check col props series
        ++ range_check df col props series
        ++ allowed_check df col props series
        ++ forbidden_check df col props series
        ++ regex_check df col props series
  end.

(** [validate(df)] on a schema dictionary. *)
Definition validate (schema : Schema) (df : DataFrame) : list Finding :=
  foldl (fun errors entry => errors ++ validate_column df entry) [] schema.

(** [validate(df)] on whatever [__init__] stored in [self.schema]. *)
Definition validate_self (self_schema : TopValue) (df : DataFrame)
    : PyError + list Finding :=
  match schema_items self_schema with
  | inl e => inl e
  | inr schema => inr (validate schema df)
  end.

End with_backend.
End DataValidator.

(** ** The pipeline of [main] *)

Section pipeline.
Context `{Backend}.

(** Steps 2 to 5 of [main]: construct both objects from the schema path,
    then harmonize the table and validate the result. *)
Definition run (fs : FileSystem) (schema_path : string) (df : DataFrame)
    : PyError + DataFrame * list ActionLog * list Finding :=
  match DataHarmonizer.__init__ fs schema_path with
  | inl e => inl e
  | inr harmonizer =>
      match DataValidator.__init__ fs schema_path with
      | inl e => inl e
      | inr validator =>
          match DataHarmonizer.harmonize_self harmonizer df with
          | inl e => inl e
          | inr (df_clean, harm_report) =>
              match DataValidator.validate_self validator df_clean with
              | inl e => inl e
              | inr error_df => inr (df_clean, harm_report, error_df)
              end
          end
      end
  end.

End pipeline.

(** Whether [pat] occurs in [s]. *)
Fixpoint occurs_in (pat s : string) : bool :=
  String.prefix pat s ||
  match s with
  | EmptyString => false
  | String _ rest => occurs_in pat rest
  end.

(** ** A reference engine

    A small executable instance of [Backend], used to run the model on
    concrete tables. *)

Module Reference.

(** Parse an optionally signed, non-empty decimal numeral. *)
Fixpoint parse_digits (s : string) (acc : Z) : option Z :=
  match s with
  | EmptyString => Some acc
  | String c rest =>
      let n := Z.of_nat (Ascii.nat_of_ascii c) in
      if bool_decide (48 ≤ n ≤ 57)%Z
      then parse_digits rest (10 * acc + (n - 48))%Z
      else None
  end.

Definition parse_int (s : string) : option Z :=
  match s with
  | EmptyString => None
  | String c rest =>
      if bool_decide (Ascii.nat_of_ascii c = 45) then
        match rest with
        | EmptyString => None
        | _ => Z.opp <$> parse_digits rest 0
        end
      else parse_digits s 0
  end.

(** Non-strict cast of one value. *)
Definition cast_value (target : DType) (v : Value) : Cell :=
  match target, v with
  | Int64, VInt z => Some (VInt z)
  | Int64, VStr s => VInt <$> parse_int s
  | Int64, VBool b => Some (VInt (if b then 1 else 0))
  | String_, _ => cast_string (Some v)
  | Boolean, VBool b => Some (VBool b)
  | Boolean, VInt z => Some (VBool (bool_decide (z ≠ 0%Z)))
  | _, _ => None
  end.

Definition ref_cast_values (_ target : DType) (l : list Cell) : list Cell :=
  map (fun c => c ≫= cast_value target) l.

Definition ref_lt (v lit : Value) : bool :=
  match v, lit with
  | VInt a, VInt b => bool_decide (a < b)%Z
  | _, _ => false
  end.

Definition ref_gt (v lit : Value) : bool :=
  match v, lit with
  | VInt a, VInt b => bool_decide (b < a)%Z
  | _, _ => false
  end.

Definition backend : Backend := {|
  cast_values := ref_cast_values;
  unique := remove_dups;
  unique_NoDup := NoDup_remove_dups;
  unique_elem_of := fun l c => elem_of_remove_dups l c;
  value_lt := ref_lt;
  value_gt := ref_gt;
  str_contains := fun s pattern => occurs_in pattern s;
|}.

End Reference.

(** ** Reading the reports *)

(** The [Rename] rows of a harmonization report that concern [col]. *)
Definition rename_entries (col : string) (report : list ActionLog)
    : list ActionLog :=
  filter (fun e => column e = col ∧ action e = "Rename") report.

(** The rows the type-coercion step logged for [col]. *)
Definition cast_entries (col : string) (report : list ActionLog)
    : list ActionLog :=
  filter (fun e => column e = col ∧ action e ≠ "Rename") report.

(** The rows of a validation report for column [col] and check [chk]. *)
Definition findings_of (col chk : string) (report : list Finding)
    : list Finding :=
  filter (fun f => variable f = col ∧ check f = chk) report.

(** All rows of a validation report for column [col]. *)
Definition findings_for (col : string) (report : list Finding)
    : list Finding :=
  filter (fun f => variable f = col) report.

(** The number of columns of [before] that carry another name in [after]
    (the two frames have their columns in the same order). *)
Definition renamed_columns (before after : DataFrame) : nat :=
  length (filter (fun p : string * string => p.1 ≠ p.2)
            (zip (columns before) (columns after))).

(** *** Invalid rows, read off the cells

    The rows each quality check is meant to report, stated on a cell of
    the checked column.  A null cell is never one of them. *)

(** Below [low] or above [high]. *)
Definition out_of_range `{Backend} (low high : Value) (c : Cell) : Prop :=
  match c with
  | Some v => value_lt v low = true ∨ value_gt v high = true
  | None => False
  end.

(** A text value that does not match [pattern]. *)
Definition mismatches `{Backend} (pattern : string) (c : Cell) : Prop :=
  match c with
  | Some v => str_contains (py_str v) pattern = false
  | None => False
  end.

(** A value outside the whitelist. *)
Definition disallowed (allowed : list Value) (c : Cell) : Prop :=
  match c with
  | Some v => v ∉ allowed
  | None => False
  end.

(** A value on the blacklist. *)
Definition blacklisted (forbidden : list Value) (c : Cell) : Prop :=
  match c with
  | Some v => v ∈ forbidden
  | None => False
  end.

#[global] Instance out_of_range_dec `{Backend} low high c :
  Decision (out_of_range low high c).
Proof. destruct c; simpl; apply _. Defined.

#[global] Instance mismatches_dec `{Backend} pattern c :
  Decision (mismatches pattern c).
Proof. destruct c; simpl; apply _. Defined.

#[global] Instance disallowed_dec allowed c : Decision (disallowed allowed c).
Proof. destruct c; simpl; apply _. Defined.

#[global] Instance blacklisted_dec forbidden c :
  Decision (blacklisted forbidden c).
Proof. destruct c; simpl; apply _. Defined.

(** The list of literals contains at least one text literal. *)
Definition has_text_literal (literals : list Value) : Prop :=
  Exists (fun v => ∃ s, v = VStr s) literals.

#[global] Instance is_text_dec (v : Value) : Decision (∃ s, v = VStr s).
Proof.
  destruct v as [z|s|b|r];
    [right; by intros [? ?]|left; by exists s|right; by intros [? ?]..].
Defined.

#[global] Instance has_text_literal_dec literals :
  Decision (has_text_literal literals).
Proof. apply _. Defined.


(** The cells of column [col] in the rows a filter keeps. *)
Definition invalid_cells (pred : Cell -> option bool) (series : Series)
    (df : DataFrame) (col : string) : list Cell :=
  from_option values [] (get_column (df_filter pred series df) col).

(** The distinct non-null values of a list of cells. *)
Definition distinct_values (vals : list Value) (cells : list Cell) : Prop :=
  NoDup vals ∧ forall v, v ∈ vals <-> Some v ∈ cells.

(** Every pending rename goes from a column of the table to a canonical
    name the table lacks. *)
Definition pending_ok (df_cols : gset string)
    (rename_map : gmap string string) : Prop :=
  forall alias col,
    rename_map !! alias = Some col -> alias ∈ df_cols ∧ col ∉ df_cols.

(** [alias] is the first of the aliases, in declared order, that is a
    column of the table. *)
Definition first_present (df_cols : gset string) (aliases : list string)
    (alias : string) : Prop :=
  ∃ pre post,
    aliases = pre ++ alias :: post
    ∧ Forall (fun a => a ∉ df_cols) pre
    ∧ alias ∈ df_cols.

(** Every entry of the rename map was put there for a schema column whose
    first present alias is the entry's key. *)
Definition selected_from (df_cols : gset string) (schema : Schema)
    (rename_map : gmap string string) : Prop :=
  forall alias col,
    rename_map !! alias = Some col ->
    ∃ props,
      (col, props) ∈ schema
      ∧ first_present df_cols (default [] (p_aliases props)) alias.

(** All aliases declared in the schema, in declaration order. *)
Definition declared_aliases (schema : Schema) : list string :=
  flat_map (fun e => default [] (p_aliases e.2)) schema.

(** The table after step 1 of [harmonize]. *)
Definition renamed_table (schema : Schema) (df : DataFrame) : DataFrame :=
  DataHarmonizer.apply_renames (DataHarmonizer.resolve_renames schema df).1 df.

(** What a report row would have to satisfy to report the names of the
    physical types before and after a cast: both names occur in its
    details. *)
Definition names_both_dtypes (before after : DType) (e : ActionLog) : Prop :=
  occurs_in (dtype_name before) (details e) = true
  ∧ occurs_in (dtype_name after) (details e) = true.

(** A schema source that is missing or unreadable ([open] fails), or
    structurally invalid: not parseable, not a mapping at the top level,
    or with something other than a mapping under ["schema"]. *)
Definition schema_document_invalid (outcome : LoadOutcome) : Prop :=
  match outcome with
  | OpenFails _ | ParseFails _ => True
  | Loaded (YamlNotMapping _) => True
  | Loaded (YamlMapping items) =>
      ∃ type_name, dict_get items "schema" (TVDict []) = TVOther type_name
  end.

(** Construction ends in the wrapped loader error. *)
Definition fails_wrapped {A} (result : PyError + A) : Prop :=
  ∃ cause, result = inl (ValueError ("Failed to load schema: " ++ cause)).

(** The step-2 log of a run of the cast loop started on [df]. *)
Fixpoint cast_logs `{Backend} (df : DataFrame) (schema : Schema)
    : list ActionLog :=
  match schema with
  | [] => []
  | entry :: rest =>
      snd (DataHarmonizer.cast_step (df, []) entry)
        ++ cast_logs (fst (DataHarmonizer.cast_step (df, []) entry)) rest
  end.

(** Where the entries of the rename map come from, and that no canonical
    name is the target of two entries. *)
Definition rename_map_from (schema : Schema) (rename_map : gmap string string)
    : Prop :=
  (forall alias col,
     rename_map !! alias = Some col ->
     ∃ props, (col, props) ∈ schema ∧ alias ∈ default [] (p_aliases props))
  ∧ (forall a1 a2 col,
       rename_map !! a1 = Some col -> rename_map !! a2 = Some col -> a1 = a2).

(** Nothing is left for the harmonizer to do on a table: no schema column
    is missing while one of its aliases is present, and every schema
    column present has the physical type its declared type maps to. *)
Definition settled (schema : Schema) (df : DataFrame) : Prop :=
  forall col props,
    (col, props) ∈ schema ->
    (col ∈ columns df
     ∨ Forall (fun a => a ∉ columns df) (default [] (p_aliases props)))
    ∧ (forall series target,
         get_column df col = Some series ->
         DataHarmonizer.type_map (p_type props) = Some target ->
         dtype series = target).

(** ** Runs in which the engine raises

    [harmonize] and [validate] above describe the runs in which every
    call into the engine returns.  The engine can also refuse an
    operation: a non-strict cast between types it has no conversion for,
    a comparison or a membership test between a column and literals of
    types it cannot reconcile, a pattern it cannot compile.  The exception
    is not caught by the program and ends the run.  Which operations are
    refused is the engine's business and is a parameter here; the two
    functions below are [harmonize] and [validate] again, with the
    exception taken where the program calls the engine. *)

Inductive EngineError :=
  | InvalidOperationError (msg : string)
  | ComputeError (msg : string)
  | TypeError (msg : string).

Class Raises := {
  (** [series.cast(target, strict=False)] *)
  cast_raises : DType -> Series -> option EngineError;
  (** [df.filter((col < low) | (col > high))] *)
  range_raises : Series -> Value -> Value -> option EngineError;
  (** [df.filter] on [check_expr.is_in(literals)] or its negation; the
      flag says whether [check_expr] is the column cast to text. *)
  is_in_raises : bool -> Series -> list Value -> option EngineError;
  (** [df.filter(~col.str.contains(pattern))] *)
  contains_raises : Series -> string -> option EngineError;
}.

Section raising.
Context `{Backend} `{Raises}.

(** One iteration of the cast loop. *)
Definition cast_step_or_raise (st : DataFrame * list ActionLog)
    (entry : string * Props) : EngineError + DataFrame * list ActionLog :=
  let '(col, props) := entry in
  let '(df, report_logs) := st in
  match get_column df col with
  | None => inr st
  | Some series =>
      let target_type_str := p_type props in
      match DataHarmonizer.type_map target_type_str with
      | None => inr st
      | Some target_pl_type =>
          let current_type := dtype series in
          if decide (current_type ≠ target_pl_type) then
            let nulls_before := null_count series in
            match cast_raises target_pl_type series with
            | Some e => inl e
            | None =>
                let df' := DataHarmonizer.cast_column col target_pl_type df in
                let nulls_after :=
                  from_option null_count 0%nat (get_column df' col) in
                let failed_rows :=
                  (Z.of_nat nulls_after - Z.of_nat nulls_before)%Z in
                if decide (0 < failed_rows)%Z then
                  inr (df', report_logs ++
                         [mkAction "Cast Fail" col
                            ("Failed to cast " ++ pretty failed_rows
                               ++ " rows to "
                               ++ default "None" target_type_str)])
                else
                  inr (df', report_logs ++
                         [mkAction "Cast Success" col
                            ("Cast from " ++ dtype_name current_type ++ " to "
                               ++ default "None" target_type_str)])
            end
          else inr st
      end
  end.

(** [harmonize(df)]: the transformed table and the report, or the
    exception of the first cast the engine refuses. *)
Definition harmonize_or_raise (schema : Schema) (df : DataFrame)
    : EngineError + DataFrame * list ActionLog :=
  let '(rename_map, report_logs) := DataHarmonizer.resolve_renames schema df in
  let df := DataHarmonizer.apply_renames rename_map df in
  foldl (fun acc entry =>
           match acc with
           | inl e => inl e
           | inr st => cast_step_or_raise st entry
           end) (inr (df, report_logs)) schema.

Definition range_check_or_raise (df : DataFrame) (col : string)
    (props : Props) (series : Series) : EngineError + list Finding :=
  match p_range props with
  | Some (low, high) =>
      match range_raises series low high with
      | Some e => inl e
      | None =>
          let invalid :=
            df_filter (DataValidator.range_pred low high) series df in
          if decide (height invalid ≠ 0) then
            inr [mkFinding col "Range"
                   (pretty (height invalid) ++ " rows outside ["
                      ++ py_str low ++ ", " ++ py_str high ++ "]")
                   (DataValidator._get_example_msg invalid col)]
          else inr []
      end
  | None => inr []
  end.

Definition allowed_check_or_raise (df : DataFrame) (col : string)
    (props : Props) (series : Series) : EngineError + list Finding :=
  match p_allowed_value props with
  | Some allowed =>
      match is_in_raises
              (DataValidator.coerce_to_text allowed (dtype series))
              series allowed with
      | Some e => inl e
      | None =>
          let invalid :=
            df_filter (DataValidator.allowed_pred allowed (dtype series))
              series df in
          if decide (height invalid ≠ 0) then
            inr [mkFinding col "Allowed Values"
                   (pretty (height invalid) ++ " rows have invalid values")
                   (DataValidator._get_example_msg invalid col)]
          else inr []
      end
  | None => inr []
  end.

Definition forbidden_check_or_raise (df : DataFrame) (col : string)
    (props : Props) (series : Series) : EngineError + list Finding :=
  match p_not_allowed_value props with
  | Some forbidden =>
      match is_in_raises
              (DataValidator.coerce_to_text forbidden (dtype series))
              series forbidden with
      | Some e => inl e
      | None =>
          let invalid :=
            df_filter (DataValidator.forbidden_pred forbidden (dtype series))
              series df in
          if decide (height invalid ≠ 0) then
            inr [mkFinding col "Forbidden Values"
                   (pretty (height invalid) ++ " rows found in blacklist")
                   (DataValidator._get_example_msg invalid col)]
          else inr []
      end
  | None => inr []
  end.

Definition regex_check_or_raise (df : DataFrame) (col : string)
    (props : Props) (series : Series) : EngineError + list Finding :=
  match p_regex props with
  | Some pattern =>
      if decide (dtype series = String_) then
        match contains_raises series pattern with
        | Some e => inl e
        | None =>
            let invalid :=
              df_filter (DataValidator.regex_pred pattern) series df in
            if decide (height invalid ≠ 0) then
              inr [mkFinding col "Regex"
                     (pretty (height invalid) ++ " rows mismatch pattern '"
                        ++ pattern ++ "'")
                     (DataValidator._get_example_msg invalid col)]
            else inr []
        end
      else inr []
  | None => inr []
  end.

(** The body of the loop of [validate]: the findings one schema column
    appends, or the exception of the first filter the engine refuses. *)
Definition validate_column_or_raise (df : DataFrame) (entry : string * Props)
    : EngineError + list Finding :=
  let '(col, props) := entry in
  match get_column df col with
  | None =>
      if negb (default false (p_optional props)) then
        inr [mkFinding col "Existence" "Column not found" "N/A"]
      else inr []
  | Some series =>
      match range_check_or_raise df col props series with
      | inl e => inl e
      | inr range_findings =>
          match allowed_check_or_raise df col props series with
          | inl e => inl e
          | inr allowed_findings =>
              match forbidden_check_or_raise df col props series with
              | inl e => inl e
              | inr forbidden_findings =>
                  match regex_check_or_raise df col props series with
                  | inl e => inl e
                  | inr regex_findings =>
                      inr (DataValidator.type_check col props series
                             ++ range_findings ++ allowed_findings
                             ++ forbidden_findings ++ regex_findings)
                  end
              end
          end
      end
  end.

(** [validate(df)]: the report, or the exception that ends the run. *)
Definition validate_or_raise (schema : Schema) (df : DataFrame)
    : EngineError + list Finding :=
  foldl (fun acc entry =>
           match acc with
           | inl e => inl e
           | inr errors =>
               match validate_column_or_raise df entry with
               | inl e => inl e
               | inr findings => inr (errors ++ findings)
               end
           end) (inr []) schema.

End raising.

(** A reference for what the engine refuses, after polars 1.x, for the
    sample runs: the cast of text to boolean; an order comparison of a
    text column with a number; a membership test against a list that
    mixes text with other literals, or whose literals are text where the
    compared column is not (or the other way round).  Everything else is
    accepted. *)
Module ReferenceRaises.

Definition all_text (literals : list Value) : bool :=
  forallb isinstance_str literals.

Definition no_text (literals : list Value) : bool :=
  forallb (fun v => negb (isinstance_str v)) literals.

Definition ref_cast_raises (target : DType) (series : Series)
    : option EngineError :=
  match dtype series, target with
  | String_, Boolean =>
      Some (InvalidOperationError
              "casting from Utf8View to Boolean not supported")
  | _, _ => None
  end.

Definition ref_range_raises (series : Series) (low high : Value)
    : option EngineError :=
  match dtype series, low, high with
  | String_, VStr _, VStr _ => None
  | String_, _, _ =>
      Some (ComputeError "cannot compare string with numeric type")
  | _, _, _ => None
  end.

Definition ref_is_in_raises (coerced : bool) (series : Series)
    (literals : list Value) : option EngineError :=
  let textual := coerced || bool_decide (dtype series = String_) in
  if negb (all_text literals || no_text literals) then
    Some (TypeError "unexpected value while building Series")
  else if textual && negb (all_text literals) then
    Some (InvalidOperationError "'is_in' cannot check for values in String data")
  else if negb textual && negb (no_text literals) then
    Some (InvalidOperationError "'is_in' cannot check for String values")
  else None.

Definition raises : Raises := {|
  cast_raises := ref_cast_raises;
  range_raises := ref_range_raises;
  is_in_raises := ref_is_in_raises;
  contains_raises := fun _ _ => None;
|}.

End ReferenceRaises.

(** ** The rest of [main] *)

(** What [main] takes from its host besides the columnar engine:
    Python's [str.lower] and polars' seeded [df.sample(fraction=0.1,
    seed=42)]. *)
Class Host := {
  str_lower : string -> string;
  sample : DataFrame -> DataFrame;
}.

(** How [main] can end early: construction or a later use of the schema
    raises, or polars refuses duplicate column names. *)
Inductive MainError :=
  | SchemaFailure (e : PyError)
  | DuplicateError.

(** [df.columns = names]: the columns take the given names, which have to
    be distinct. *)
Definition set_columns (names : list string) (df : DataFrame)
    : option DataFrame :=
  if decide (NoDup names)
  then Some (zip_with (fun n s => mkSeries n (dtype s) (values s)) names df)
  else None.

(** What [main] has in hand when it prints its last line. *)
Record MainResult := mkMainResult {
  df_clean : DataFrame;
  harm_report : list ActionLog;
  error_df : list Finding;
  df_sample : DataFrame;
}.

Section main.
Context `{Backend} `{Host}.

(** [main], from the construction of the two objects on, for the table
    [pl.read_parquet] returned. *)
Definition main (fs : FileSystem) (schema_path : string) (df : DataFrame)
    : MainError + MainResult :=
  match DataHarmonizer.__init__ fs schema_path with
  | inl e => inl (SchemaFailure e)
  | inr harmonizer =>
      match DataValidator.__init__ fs schema_path with
      | inl e => inl (SchemaFailure e)
      | inr validator =>
          match set_columns (map str_lower (columns df)) df with
          | None => inl DuplicateError
          | Some df =>
              match DataHarmonizer.harmonize_self harmonizer df with
              | inl e => inl (SchemaFailure e)
              | inr (df_clean, harm_report) =>
                  match DataValidator.validate_self validator df_clean with
                  | inl e => inl (SchemaFailure e)
                  | inr error_df =>
                      let n_rows := height df_clean in
                      let df_sample :=
                        if decide (n_rows < 50) then df_clean
                        else sample df_clean in
                      inr (mkMainResult df_clean harm_report error_df
                             df_sample)
                  end
              end
          end
      end
  end.

End main.

(** ** Sample schemas and tables *)

Module Samples.

(** Two canonical columns that declare the same alias. *)
Definition shared_alias_schema : Schema :=
  [("a", mkProps None (Some ["x"]) None None None None None);
   ("b", mkProps None (Some ["x"]) None None None None None)].

Definition shared_alias_df : DataFrame :=
  [mkSeries "x" Int64 [Some (VInt 1)]].

(** A text column of numerals, declared as integer. *)
Definition numerals_schema : Schema :=
  [("n", mkProps (Some "integer") None None None None None None)].

Definition numerals_df : DataFrame :=
  [mkSeries "n" String_ [Some (VStr "1"); Some (VStr "2")]].

Definition age_props : Props :=
  mkProps (Some "integer") (Some ["Age"; "years"]) None
    (Some (VInt 0, VInt 120)) None None None.

Definition email_props : Props :=
  mkProps (Some "string") None None None None None (Some "@").

Definition level_props : Props :=
  mkProps (Some "integer") None None None
    (Some [VInt 1; VStr "2"]) (Some [VStr "3"]) (Some "9").

Definition note_props : Props :=
  mkProps (Some "string") None None (Some (VInt 0, VInt 1))
    (Some [VStr "ok"]) (Some [VStr "bad"]) (Some "x").

Definition id_props : Props :=
  mkProps (Some "integer") None None None None None None.

Definition nickname_props : Props :=
  mkProps (Some "string") None (Some true) None None None None.

Definition people_schema : Schema :=
  [("age", age_props); ("email", email_props); ("level", level_props);
   ("note", note_props); ("id", id_props); ("nickname", nickname_props)].

Definition people_df : DataFrame :=
  [mkSeries "Age" String_
     [Some (VStr "25"); Some (VStr "bad"); Some (VStr "200"); Some (VStr "-5")];
   mkSeries "years" Int64
     [Some (VInt 1); Some (VInt 2); Some (VInt 3); Some (VInt 4)];
   mkSeries "email" String_
     [Some (VStr "a@b"); Some (VStr "nope"); None; Some (VStr "c@d")];
   mkSeries "level" Int64
     [Some (VInt 1); Some (VInt 2); Some (VInt 3); None];
   mkSeries "note" String_ [None; None; None; None]].

(** The table of the end-to-end scenario: one column [Age] holding
    [25, "bad", 200, -5]. *)
Definition scenario_schema : Schema :=
  [("age", mkProps (Some "integer") (Some ["Age"]) None
             (Some (VInt 0, VInt 120)) None None None)].

Definition scenario_df : DataFrame :=
  [mkSeries "Age" String_
     [Some (VStr "25"); Some (VStr "bad"); Some (VStr "200"); Some (VStr "-5")]].

(** File systems. *)
Definition fs_missing : FileSystem :=
  fun _ => OpenFails "[Errno 2] No such file or directory: 'data_schema.yaml'".

Definition fs_empty_document : FileSystem :=
  fun _ => Loaded (YamlNotMapping "NoneType").

Definition fs_null_schema : FileSystem :=
  fun _ => Loaded (YamlMapping [("schema", TVOther "NoneType")]).

Definition fs_other_key : FileSystem :=
  fun _ => Loaded (YamlMapping [("columns", TVDict people_schema)]).

End Samples.

(** A reference host: lower-casing of ASCII letters, and a sample that
    keeps every tenth row. *)
Module ReferenceHost.

Definition lower_ascii (c : Ascii.ascii) : Ascii.ascii :=
  let n := Ascii.nat_of_ascii c in
  if bool_decide (65 ≤ n ≤ 90)%nat then Ascii.ascii_of_nat (n + 32) else c.

Fixpoint lower (s : string) : string :=
  match s with
  | EmptyString => EmptyString
  | String c rest => String (lower_ascii c) (lower rest)
  end.

Fixpoint every_tenth {A} (i : nat) (l : list A) : list A :=
  match l with
  | [] => []
  | x :: rest =>
      if bool_decide (i `mod` 10 = 0)%nat then x :: every_tenth (S i) rest
      else every_tenth (S i) rest
  end.

Definition host : Host := {|
  str_lower := lower;
  sample := map (fun s => mkSeries (name s) (dtype s) (every_tenth 0 (values s)));
|}.

End ReferenceHost.

(** More sample data. *)
Module MoreSamples.
Import Samples.

(** [people_df] with one more column, which the schema does not mention. *)
Definition people_df_extra : DataFrame :=
  people_df
    ++ [mkSeries "comment" String_
          [Some (VStr "a"); None; Some (VStr "b"); Some (VStr "c")]].








(** A text column declared boolean, and a timestamp column declared
    integer. *)
Definition flags_schema : Schema :=
  [("flag", mkProps (Some "boolean") None None None None None None)].

Definition flags_df : DataFrame :=
  [mkSeries "flag" String_ [Some (VStr "true"); Some (VStr "no")]].

Definition stamps_schema : Schema :=
  [("seen", mkProps (Some "integer") None None None None None None)].

Definition stamps_df : DataFrame :=
  [mkSeries "seen" (Datetime "(time_unit='us', time_zone=None)")
     [Some (VOther "2024-01-01 00:00:00"); None]].

(** A schema with a type string neither table knows. *)
Definition legacy_props : Props :=
  mkProps (Some "text") None None None None None None.

Definition legacy_schema : Schema := [("code", legacy_props)].

Definition legacy_df : DataFrame :=
  [mkSeries "code" Int64 [Some (VInt 7); None]].

(** The harmonized tables of two earlier samples. *)
Definition scenario_clean : DataFrame :=
  [mkSeries "age" Int64
     [Some (VInt 25); None; Some (VInt 200); Some (VInt (-5))]].

Definition scenario_age_props : Props :=
  mkProps (Some "integer") (Some ["Age"]) None
    (Some (VInt 0, VInt 120)) None None None.

(** A table with upper-case column names, as a file may have them, and a
    schema whose alias is written in lower case. *)
Definition shouting_df : DataFrame :=
  [mkSeries "AGE" Int64 [Some (VInt 31); Some (VInt 47)]].

Definition years_schema : Schema :=
  [("years_old", mkProps (Some "integer") (Some ["age"]) None None None None
                   None)].

Definition fs_years : FileSystem :=
  fun _ => Loaded (YamlMapping [("schema", TVDict years_schema)]).

End MoreSamples.

(** * Properties *)

(** ** Lists *)

Lemma filter_none {A} (P : A -> Prop) `{!∀ x, Decision (P x)} (l : list A) :
  (forall x, x ∈ l -> ¬ P x) -> filter P l = [].
Proof.
  induction l as [|a l IH]; intros Hall; [done|].
  rewrite filter_cons_False by (apply Hall; left).
  apply IH. intros x Hx. apply Hall. by right.
Qed.

Lemma filter_all {A} (P : A -> Prop) `{!∀ x, Decision (P x)} (l : list A) :
  (forall x, x ∈ l -> P x) -> filter P l = l.
Proof.
  induction l as [|a l IH]; intros Hall; [done|].
  rewrite filter_cons_True by (apply Hall; left).
  f_equal. apply IH. intros x Hx. apply Hall. by right.
Qed.

Lemma string_append_empty_r (s : string) : String.append s "" = s.
Proof.
  induction s as [|a s IH]; [reflexivity|].
  change (String a (String.append s "") = String a s). by rewrite IH.
Qed.

(** ** Dictionaries in declaration order *)

Section keyed.
Context {A : Type} (key : A -> string) (P : A -> Prop) `{!∀ x, Decision (P x)}.
Context (f : string * Props -> list A).
Hypothesis f_key : forall e x, x ∈ f e -> key x = e.1.

Lemma filter_key_absent (schema : Schema) (col : string) :
  col ∉ map fst schema ->
  filter (fun x => key x = col ∧ P x) (flat_map f schema) = [].
Proof.
  induction schema as [|e rest IH]; intros Hnot; [done|].
  simpl in *. rewrite filter_app, IH by set_solver.
  rewrite app_nil_r. apply filter_none.
  intros x Hx [Hk _]. apply f_key in Hx. set_solver.
Qed.

Lemma filter_key_unique (schema : Schema) (col : string) (props : Props) :
  wf_schema schema -> (col, props) ∈ schema ->
  filter (fun x => key x = col ∧ P x) (flat_map f schema)
  = filter (fun x => key x = col ∧ P x) (f (col, props)).
Proof.
  unfold wf_schema. induction schema as [|e rest IH]; intros Hnd Hin.
  { by apply elem_of_nil in Hin. }
  simpl in *. apply NoDup_cons in Hnd as [Hfresh Hnd].
  rewrite filter_app. apply elem_of_cons in Hin as [<-|Hin].
  - rewrite filter_key_absent by done. by rewrite app_nil_r.
  - rewrite IH by done.
    assert (filter (fun x => key x = col ∧ P x) (f e) = []) as ->; [|done].
    apply filter_none. intros x Hx [Hk _].
    apply f_key in Hx. apply Hfresh. rewrite <- Hx, Hk.
    by apply (list_elem_of_fmap_2 fst _ (col, props)).
Qed.

End keyed.

(** ** Rename resolution *)

Section rename_resolution.
Import DataHarmonizer.

Implicit Types (df_cols : gset string) (st : gmap string string * list ActionLog).

(** The alias scan either finds nothing and leaves the state alone, or
    stops at the first alias present in the table. *)
Lemma scan_aliases_cases df_cols col aliases st :
  (Forall (fun a => a ∉ df_cols) aliases
   ∧ scan_aliases df_cols col aliases st = st)
  ∨ (∃ pre alias post,
       aliases = pre ++ alias :: post
       ∧ Forall (fun a => a ∉ df_cols) pre
       ∧ alias ∈ df_cols
       ∧ scan_aliases df_cols col aliases st
         = (<[alias := col]> st.1,
            st.2 ++ [mkAction "Rename" col ("Renamed from '" ++ alias ++ "'")])).
Proof.
  induction aliases as [|a rest IH]; simpl.
  - left. by split.
  - destruct (decide (a ∈ df_cols)) as [Hin|Hout].
    + right. exists [], a, rest. by repeat split.
    + destruct IH as [[Hall ->]|(pre & alias & post & -> & Hpre & Hin & ->)].
      * left. split; [by constructor|done].
      * right. exists (a :: pre), alias, post.
        repeat split; [by constructor|done].
Qed.

Lemma scan_aliases_snd df_cols col aliases st :
  (scan_aliases df_cols col aliases st).2
  = st.2 ++ (scan_aliases df_cols col aliases (∅, [])).2.
Proof.
  induction aliases as [|a rest IH]; simpl.
  - by rewrite app_nil_r.
  - by destruct (decide (a ∈ df_cols)).
Qed.

Lemma resolve_column_snd df_cols st entry :
  (resolve_column df_cols st entry).2
  = st.2 ++ (resolve_column df_cols (∅, []) entry).2.
Proof.
  destruct entry as [col props]. unfold resolve_column.
  destruct (decide (col ∈ df_cols)); simpl.
  - by rewrite app_nil_r.
  - apply scan_aliases_snd.
Qed.

(** The step-1 log is the concatenation of what each schema column logs. *)
Lemma resolve_logs_flat df_cols schema st :
  (foldl (resolve_column df_cols) st schema).2
  = st.2 ++ flat_map (fun e => (resolve_column df_cols (∅, []) e).2) schema.
Proof.
  revert st. induction schema as [|e rest IH]; intros st; simpl.
  - by rewrite app_nil_r.
  - by rewrite IH, resolve_column_snd, <- app_assoc.
Qed.

Lemma resolve_column_key df_cols e x :
  x ∈ (resolve_column df_cols (∅, []) e).2 ->
  column x = e.1 ∧ action x = "Rename".
Proof.
  destruct e as [col props]. unfold resolve_column.
  destruct (decide (col ∈ df_cols)); simpl; [by intros ?%elem_of_nil|].
  destruct (scan_aliases_cases df_cols col (default [] (p_aliases props)) (∅, []))
    as [[_ ->]|(pre & alias & post & _ & _ & _ & ->)]; simpl.
  - by intros ?%elem_of_nil.
  - by intros ->%list_elem_of_singleton.
Qed.

Lemma scan_aliases_pending df_cols col aliases st :
  col ∉ df_cols -> pending_ok df_cols st.1 ->
  pending_ok df_cols (scan_aliases df_cols col aliases st).1.
Proof.
  intros Hcol Hok.
  destruct (scan_aliases_cases df_cols col aliases st)
    as [[_ ->]|(pre & alias & post & _ & _ & Halias & ->)]; [done|].
  cbn [fst]. intros a c. rewrite lookup_insert.
  case_decide as Heq; [|apply Hok]. intros [= <-]. by subst.
Qed.

Lemma resolve_renames_pending schema df :
  pending_ok (list_to_set (columns df)) (resolve_renames schema df).1.
Proof.
  unfold resolve_renames.
  assert (forall st, pending_ok (list_to_set (columns df)) st.1 ->
    pending_ok (list_to_set (columns df))
      (foldl (resolve_column (list_to_set (columns df))) st schema).1) as Hgen.
  { induction schema as [|[col props] rest IH]; intros st Hst; [done|].
    cbn [foldl]. apply IH. unfold resolve_column.
    case_decide; [done|]. by apply scan_aliases_pending. }
  apply Hgen. intros a c Hl. cbn [fst] in Hl. by rewrite lookup_empty in Hl.
Qed.

End rename_resolution.

(** ** Type coercion *)

Section type_coercion.
Context `{Backend}.
Import DataHarmonizer.

Lemma get_column_Some_elem_of (df : DataFrame) col series :
  get_column df col = Some series -> series ∈ df ∧ name series = col.
Proof.
  induction df as [|s rest IH]; simpl; [done|].
  destruct (decide (name s = col)).
  - intros [= <-]. split; [left|done].
  - intros [Hin Hn]%IH. split; [by right|done].
Qed.

Lemma get_column_is_Some (df : DataFrame) col :
  is_Some (get_column df col) <-> col ∈ columns df.
Proof.
  unfold columns. induction df as [|s rest IH]; simpl.
  - split; [by intros [? ?]|by intros ?%elem_of_nil].
  - destruct (decide (name s = col)) as [<-|Hne].
    + split; [intros _; left|by eexists].
    + rewrite IH, elem_of_cons. naive_solver.
Qed.

Lemma get_column_None (df : DataFrame) col :
  get_column df col = None <-> col ∉ columns df.
Proof.
  rewrite <- get_column_is_Some, eq_None_not_Some. done.
Qed.

(** Casting one column leaves the others as they are. *)
Lemma get_column_cast_ne (df : DataFrame) col col' target :
  col' ≠ col ->
  get_column (cast_column col target df) col' = get_column df col'.
Proof.
  intros Hne. induction df as [|s rest IH]; simpl; [done|].
  destruct (decide (name s = col)) as [Heq|Hneq]; simpl.
  - rewrite !decide_False by congruence. done.
  - destruct (decide (name s = col')); [done|apply IH].
Qed.

Lemma get_column_cast_eq (df : DataFrame) col target :
  get_column (cast_column col target df) col
  = (fun s => mkSeries (name s) target
                (cast_values (dtype s) target (values s)))
      <$> get_column df col.
Proof.
  induction df as [|s rest IH]; simpl; [done|].
  destruct (decide (name s = col)) as [Heq|Hneq]; simpl.
  - by rewrite decide_True.
  - by rewrite decide_False.
Qed.

Lemma cast_step_snd df logs entry :
  (cast_step (df, logs) entry).2 = logs ++ (cast_step (df, []) entry).2.
Proof.
  destruct entry as [col props]. unfold cast_step.
  repeat (case_match || case_decide); simpl; by rewrite ?app_nil_r.
Qed.

Lemma cast_step_fst df logs entry :
  (cast_step (df, logs) entry).1 = (cast_step (df, []) entry).1.
Proof.
  destruct entry as [col props]. unfold cast_step.
  repeat (case_match || case_decide); done.
Qed.

Lemma cast_step_frame df entry col :
  col ≠ entry.1 ->
  get_column (cast_step (df, []) entry).1 col = get_column df col.
Proof.
  destruct entry as [col' props]. simpl. intros Hne. unfold cast_step.
  repeat (case_match || case_decide); simpl;
    by rewrite ?get_column_cast_ne.
Qed.

Lemma cast_step_key df entry x :
  x ∈ (cast_step (df, []) entry).2 ->
  column x = entry.1 ∧ action x ≠ "Rename".
Proof.
  destruct entry as [col props]. unfold cast_step.
  repeat (case_match || case_decide); simpl;
    try (by intros ?%elem_of_nil); by intros ->%list_elem_of_singleton.
Qed.

(** The step-2 log is [cast_logs] of the renamed table. *)
Lemma cast_fold_logs schema df logs :
  (foldl cast_step (df, logs) schema).2 = logs ++ cast_logs df schema.
Proof.
  revert df logs. induction schema as [|e rest IH]; intros df logs; simpl.
  - by rewrite app_nil_r.
  - destruct (cast_step (df, logs) e) as [df' logs'] eqn:Hstep.
    rewrite IH. 
    pose proof (cast_step_snd df logs e) as Hs.
    pose proof (cast_step_fst df logs e) as Hf.
    rewrite Hstep in Hs, Hf. simpl in Hs, Hf. subst.
    by rewrite <- app_assoc.
Qed.

Lemma cast_logs_key schema df x :
  x ∈ cast_logs df schema ->
  column x ∈ map fst schema ∧ action x ≠ "Rename".
Proof.
  revert df. induction schema as [|e rest IH]; intros df; simpl.
  - by intros ?%elem_of_nil.
  - intros [Hx|Hx]%elem_of_app.
    + apply cast_step_key in Hx as [-> ?]. split; [left|done].
    + apply IH in Hx as [? ?]. split; [by right|done].
Qed.

(** What the iteration for [col] logs depends on the table only through
    the column [col]. *)
Lemma cast_step_local df col props series :
  get_column df col = Some series ->
  (cast_step (df, []) (col, props)).2
  = (cast_step ([series], []) (col, props)).2.
Proof.
  intros Hget.
  destruct (get_column_Some_elem_of _ _ _ Hget) as [_ Hname].
  assert (get_column [series] col = Some series) as Hget1.
  { simpl. by rewrite decide_True. }
  assert (forall target,
    get_column (cast_column col target df) col
    = get_column (cast_column col target [series]) col) as Hcast.
  { intros target. by rewrite !get_column_cast_eq, Hget, Hget1. }
  unfold cast_step. rewrite Hget, Hget1.
  destruct (type_map (p_type props)) as [target|]; [|done].
  rewrite Hcast. by repeat case_decide.
Qed.

(** With unique keys, the cast rows about [col] are the ones logged by the
    iteration for [col], which sees the column as it was before the loop. *)
Lemma cast_logs_for schema df col props series :
  wf_schema schema -> (col, props) ∈ schema ->
  get_column df col = Some series ->
  cast_entries col (cast_logs df schema)
  = (cast_step ([series], []) (col, props)).2.
Proof.
  unfold wf_schema, cast_entries.
  revert df. induction schema as [|e rest IH]; intros df Hnd Hin Hget.
  { by apply elem_of_nil in Hin. }
  cbn [cast_logs map] in *. apply NoDup_cons in Hnd as [Hfresh Hnd].
  rewrite filter_app. apply elem_of_cons in Hin as [<-|Hin].
  - rewrite (filter_none _ (cast_logs _ rest)).
    2:{ intros x [Hx _]%cast_logs_key [Hc _]. simpl in Hfresh. congruence. }
    rewrite app_nil_r.
    rewrite filter_all by (intros x Hx; apply cast_step_key in Hx; exact Hx).
    by apply cast_step_local.
  - assert (col ≠ e.1) as Hne.
    { intros ->. apply Hfresh.
      by apply (list_elem_of_fmap_2 fst _ (e.1, props)). }
    rewrite (filter_none _ (cast_step _ _).2).
    2:{ intros x [Hx _]%cast_step_key [Hc _]. congruence. }
    cbn [app]. apply IH; [done..|]. by rewrite cast_step_frame.
Qed.

End type_coercion.

(** ** The harmonization report *)

Section harmonize_report.
Context `{Backend}.
Import DataHarmonizer.

(** The report is the step-1 log followed by the step-2 log. *)
Lemma harmonize_report schema df :
  (harmonize schema df).2
  = flat_map (fun e => (resolve_column (list_to_set (columns df)) (∅, []) e).2)
      schema
    ++ cast_logs (renamed_table schema df) schema.
Proof.
  unfold harmonize, renamed_table.
  pose proof (resolve_logs_flat (list_to_set (columns df)) schema (∅, [])) as Hr.
  fold (resolve_renames schema df) in Hr.
  destruct (resolve_renames schema df) as [rename_map report_logs].
  simpl in *. by rewrite cast_fold_logs, Hr.
Qed.

Lemma rename_entries_harmonize schema df col props :
  wf_schema schema -> (col, props) ∈ schema ->
  rename_entries col (harmonize schema df).2
  = (resolve_column (list_to_set (columns df)) (∅, []) (col, props)).2.
Proof.
  intros Hwf Hin. unfold rename_entries.
  rewrite harmonize_report, filter_app.
  rewrite (filter_none _ (cast_logs _ _)).
  2:{ intros x [_ Hx]%cast_logs_key [_ Ha]. done. }
  rewrite app_nil_r.
  rewrite (filter_key_unique column (fun e => action e = "Rename") _
             (fun e x Hx => proj1 (resolve_column_key _ e x Hx)) schema col props)
    by done.
  apply filter_all. intros x Hx. by apply resolve_column_key in Hx.
Qed.

Lemma cast_entries_harmonize schema df col props series :
  wf_schema schema -> (col, props) ∈ schema ->
  get_column (renamed_table schema df) col = Some series ->
  cast_entries col (harmonize schema df).2
  = (cast_step ([series], []) (col, props)).2.
Proof.
  intros Hwf Hin Hget. rewrite harmonize_report.
  unfold cast_entries. rewrite filter_app.
  rewrite (filter_none _ (flat_map _ _)).
  2:{ intros x Hx [_ Ha]. apply list_elem_of_In, in_flat_map in Hx as (e & _ & Hx).
      apply list_elem_of_In, resolve_column_key in Hx as [_ ?]. done. }
  by apply cast_logs_for.
Qed.

End harmonize_report.

(** ** Renames logged and renames applied *)

Section renames_applied.
Context `{Backend}.
Import DataHarmonizer.

Lemma rename_empty (df : DataFrame) : rename ∅ df = df.
Proof.
  unfold rename. induction df as [|s df IH]; [done|].
  cbn [map]. by rewrite lookup_empty, IH.
Qed.

Lemma apply_renames_rename rename_map (df : DataFrame) :
  apply_renames rename_map df = rename rename_map df.
Proof.
  unfold apply_renames. case_decide as Hempty; [|done].
  by rewrite Hempty, rename_empty.
Qed.

(** Casting keeps the column names. *)
Lemma columns_cast_fold schema df logs :
  columns (foldl cast_step (df, logs) schema).1 = columns df.
Proof.
  revert df logs. induction schema as [|[col props] rest IH]; intros df logs;
    [done|].
  cbn [foldl].
  destruct (cast_step (df, logs) (col, props)) as [df' logs'] eqn:Hstep.
  rewrite IH.
  assert (columns (cast_column col
                     (default String_ (type_map (p_type props))) df)
          = columns df) as Hcast.
  { unfold columns, cast_column. rewrite map_map. apply map_ext.
    intros s. by case_decide. }
  unfold cast_step in Hstep.
  repeat (case_match || case_decide); simplify_eq; try done;
    by match goal with Ht : type_map _ = Some _ |- _ =>
         rewrite Ht in Hcast end.
Qed.

(** The columns that change name under a rename map whose entries all
    change the name are the columns the map has an entry for. *)
Lemma renamed_columns_rename rename_map (df : DataFrame) :
  (forall a c, rename_map !! a = Some c -> c ≠ a) ->
  renamed_columns df (rename rename_map df)
  = length (filter (fun n => n ∈ dom rename_map) (columns df)).
Proof.
  intros Hchange. unfold renamed_columns, columns, rename.
  induction df as [|s df IH]; [done|].
  cbn [map zip zip_with]. rewrite !filter_cons. cbn [fst snd].
  destruct (rename_map !! name s) as [new|] eqn:Hlook; cbn [name].
  - rewrite decide_True by (intros Heq; by apply (Hchange _ _ Hlook)).
    rewrite decide_True by (apply elem_of_dom; by eexists).
    cbn [length]. f_equal. exact IH.
  - rewrite decide_False by (intros Hne; by apply Hne).
    rewrite decide_False; [exact IH|].
    intros [? Hsome]%elem_of_dom. congruence.
Qed.

Lemma length_filter_dom (cols : list string) (m : gmap string string) :
  NoDup cols -> (forall a, a ∈ dom m -> a ∈ cols) ->
  length (filter (fun n => n ∈ dom m) cols) = size m.
Proof.
  intros Hnd Hsub. rewrite <- size_dom.
  unfold size at 1, set_size. cbn [compose]. apply Permutation_length.
  apply NoDup_Permutation; [by apply NoDup_filter|apply NoDup_elements|].
  intros x. rewrite list_elem_of_filter, elem_of_elements. naive_solver.
Qed.

(** While no alias is declared twice, every logged rename adds an entry
    to the rename map. *)
Lemma resolve_size_logs df_cols schema st :
  NoDup (declared_aliases schema) ->
  (forall a, a ∈ declared_aliases schema -> st.1 !! a = None) ->
  size (foldl (resolve_column df_cols) st schema).1 + length st.2
  = length (foldl (resolve_column df_cols) st schema).2 + size st.1.
Proof.
  revert st. induction schema as [|[col props] rest IH]; intros st Hnd Hfresh;
    [cbn [foldl]; lia|].
  cbn [foldl]. unfold declared_aliases in *. cbn [flat_map snd] in *.
  apply NoDup_app in Hnd as (_ & Hdisj & Hrest).
  unfold resolve_column at 2 4. case_decide.
  { apply IH; [done|]. intros a Ha. apply Hfresh, elem_of_app. by right. }
  destruct (scan_aliases_cases df_cols col (default [] (p_aliases props)) st)
    as [[_ ->]|(pre & alias & post & Hsplit & _ & _ & ->)].
  { apply IH; [done|]. intros a Ha. apply Hfresh, elem_of_app. by right. }
  assert (alias ∈ default [] (p_aliases props)) as Halias.
  { rewrite Hsplit. apply elem_of_app. right. left. }
  match goal with |- context [foldl _ ?st' rest] =>
    pose proof (IH st' Hrest) as Hstep end.
  cbn [fst snd] in Hstep. rewrite length_app in Hstep. cbn [length] in Hstep.
  rewrite map_size_insert_None in Hstep
    by (apply Hfresh, elem_of_app; by left).
  cut (forall a, a ∈ flat_map (fun e => default [] (p_aliases e.2)) rest ->
                 <[alias := col]> st.1 !! a = None).
  { intros Hok. specialize (Hstep Hok). lia. }
  intros a Ha. rewrite lookup_insert_ne.
  - apply Hfresh, elem_of_app. by right.
  - intros <-. by apply (Hdisj alias).
Qed.

(** X19. When no alias is declared twice and the table's column names are
    distinct, the report has as many [Rename] rows as columns change
    name. *)
Lemma rename_rows_match_renames schema df :
  NoDup (declared_aliases schema) -> NoDup (columns df) ->
  length (filter (fun e => action e = "Rename") (harmonize schema df).2)
  = renamed_columns df (harmonize schema df).1.
Proof.
  intros Haliases Hcols.
  pose proof (resolve_renames_pending schema df) as Hok.
  pose proof (resolve_size_logs (list_to_set (columns df)) schema (∅, [])
                Haliases (fun a _ => lookup_empty a)) as Hsize.
  fold (resolve_renames schema df) in Hsize.
  pose proof (resolve_logs_flat (list_to_set (columns df)) schema (∅, []))
    as Hflat.
  fold (resolve_renames schema df) in Hflat.
  rewrite harmonize_report, filter_app.
  rewrite (filter_none _ (cast_logs _ _))
    by (intros x [_ Hx]%cast_logs_key; done).
  rewrite app_nil_r, filter_all.
  2:{ intros x Hx. apply list_elem_of_In, in_flat_map in Hx as (e & _ & Hx).
      by apply list_elem_of_In, resolve_column_key in Hx as [_ ?]. }
  cbn [fst snd app length] in Hsize, Hflat. rewrite <- Hflat.
  rewrite map_size_empty in Hsize.
  unfold renamed_columns, harmonize.
  destruct (resolve_renames schema df) as [rename_map report_logs].
  cbn [fst snd] in *. rewrite columns_cast_fold, apply_renames_rename.
  fold (renamed_columns df (rename rename_map df)).
  rewrite renamed_columns_rename.
  - rewrite length_filter_dom; [lia|done|].
    intros a [c Hc]%elem_of_dom. apply Hok in Hc as [Ha _].
    by apply elem_of_list_to_set in Ha.
  - intros a c Hc <-. by apply Hok in Hc as [? ?].
Qed.

End renames_applied.

(** ** Claims about the harmonizer *)

Section harmonizer_claims.
Context `{Backend}.
Import DataHarmonizer.

(** The cast rows of a column in the runs in which no cast raises. *)
Lemma cast_entries_per_column schema df col props series type_str target :
  wf_schema schema -> (col, props) ∈ schema ->
  get_column (renamed_table schema df) col = Some series ->
  p_type props = Some type_str ->
  type_map (Some type_str) = Some target ->
  cast_entries col (harmonize schema df).2
  = if decide (dtype series = target) then []
    else
      let casted :=
        mkSeries col target (cast_values (dtype series) target (values series)) in
      let failed_rows :=
        (Z.of_nat (null_count casted) - Z.of_nat (null_count series))%Z in
      if decide (0 < failed_rows)%Z then
        [mkAction "Cast Fail" col
           ("Failed to cast " ++ pretty failed_rows ++ " rows to " ++ type_str)]
      else
        [mkAction "Cast Success" col
           ("Cast from " ++ dtype_name (dtype series) ++ " to " ++ type_str)].
Proof.
  intros Hwf Hin Hget Htype Hmap.
  rewrite (cast_entries_harmonize schema df col props series) by done.
  destruct (get_column_Some_elem_of _ _ _ Hget) as [_ Hname].
  assert (get_column [series] col = Some series) as Hget1.
  { simpl. by rewrite decide_True. }
  unfold cast_step. rewrite Hget1, Htype, Hmap.
  rewrite get_column_cast_eq, Hget1.
  cbn [fmap option_fmap option_map from_option default].
  unfold null_count. cbn [values].
  destruct (decide (dtype series = target)) as [Heq|Hne].
  - by rewrite decide_False by (intros ?; done).
  - rewrite decide_True by done. by case_decide.
Qed.

End harmonizer_claims.

(** ** Casts the engine refuses *)

Section refused_casts.
Context `{Backend} `{Raises}.
Import DataHarmonizer.

(** An iteration of the cast loop either raises, at a present column of
    another type whose cast the engine refuses, or does what [cast_step]
    does. *)
Lemma cast_step_or_raise_cases df logs col props :
  (∃ series target e,
     get_column df col = Some series
     ∧ type_map (p_type props) = Some target
     ∧ dtype series ≠ target
     ∧ cast_raises target series = Some e
     ∧ cast_step_or_raise (df, logs) (col, props) = inl e)
  ∨ (cast_step_or_raise (df, logs) (col, props)
     = inr (cast_step (df, logs) (col, props))
     ∧ forall series target,
         get_column df col = Some series ->
         type_map (p_type props) = Some target ->
         dtype series ≠ target -> cast_raises target series = None).
Proof.
  unfold cast_step_or_raise, cast_step.
  destruct (get_column df col) as [series|]; [|by right].
  destruct (type_map (p_type props)) as [target|]; [|by right].
  destruct (decide (dtype series ≠ target)) as [Hne|Heq].
  - destruct (cast_raises target series) as [e|] eqn:Hraises.
    + left. by exists series, target, e.
    + right. split; [by case_decide|]. by intros ? ? [= <-] [= <-].
  - right. split; [done|]. by intros ? ? [= <-] [= <-].
Qed.

Lemma raise_fold_stuck (schema : Schema) e :
  foldl (fun acc entry =>
           match acc with
           | inl e => inl e
           | inr st => cast_step_or_raise st entry
           end) (inl e) schema = inl e.
Proof. by induction schema. Qed.

(** A run that returns is the run of [cast_step]. *)
Lemma cast_fold_or_raise_returns schema df logs result :
  foldl (fun acc entry =>
           match acc with
           | inl e => inl e
           | inr st => cast_step_or_raise st entry
           end) (inr (df, logs)) schema = inr result ->
  result = foldl cast_step (df, logs) schema.
Proof.
  revert df logs. induction schema as [|[col props] rest IH];
    intros df logs; cbn [foldl]; [by intros [= <-]|].
  destruct (cast_step_or_raise_cases df logs col props)
    as [(series & target & e & _ & _ & _ & _ & ->)|[-> _]].
  - by rewrite raise_fold_stuck.
  - destruct (cast_step (df, logs) (col, props)) as [df' logs'].
    apply IH.
Qed.

Lemma harmonize_or_raise_returns schema df result :
  harmonize_or_raise schema df = inr result -> result = harmonize schema df.
Proof.
  unfold harmonize_or_raise, harmonize.
  destruct (resolve_renames schema df) as [rename_map report_logs].
  apply cast_fold_or_raise_returns.
Qed.

(** In a run that returns, the engine accepted the cast of every column
    that had to be cast. *)
Lemma cast_fold_or_raise_accepts schema df logs result col props series
    target :
  wf_schema schema -> (col, props) ∈ schema ->
  foldl (fun acc entry =>
           match acc with
           | inl e => inl e
           | inr st => cast_step_or_raise st entry
           end) (inr (df, logs)) schema = inr result ->
  get_column df col = Some series ->
  type_map (p_type props) = Some target ->
  dtype series ≠ target ->
  cast_raises target series = None.
Proof.
  unfold wf_schema. revert df logs.
  induction schema as [|[col' props'] rest IH];
    intros df logs Hnd Hin Hrun Hget Hmap Hne.
  { by apply elem_of_nil in Hin. }
  cbn [foldl map fst] in *. apply NoDup_cons in Hnd as [Hfresh Hnd].
  destruct (cast_step_or_raise_cases df logs col' props')
    as [(s0 & t0 & e & _ & _ & _ & _ & Hraise)|[Hstep Haccepts]].
  { rewrite Hraise, raise_fold_stuck in Hrun. discriminate Hrun. }
  apply elem_of_cons in Hin as [Hin|Hin].
  - injection Hin as -> ->. exact (Haccepts _ _ Hget Hmap Hne).
  - assert (col ≠ col') as Hother.
    { intros Heq. apply Hfresh. rewrite <- Heq.
      exact (list_elem_of_fmap_2 fst _ _ Hin). }
    rewrite Hstep in Hrun.
    destruct (cast_step (df, logs) (col', props')) as [df1 logs1] eqn:Hcast.
    apply (IH df1 logs1 Hnd Hin Hrun); [|done|done].
    pose proof (cast_step_frame df (col', props') col Hother) as Hframe.
    rewrite <- (cast_step_fst df logs), Hcast in Hframe.
    cbn [fst] in Hframe. by rewrite Hframe.
Qed.

(** C5, as the code has it.  For every schema column present after
    renaming whose declared type maps to a target physical type.  In a
    run of [harmonize] that returns: if the column already has the target
    type, the type-coercion step logs nothing for it; otherwise it logs
    exactly one row, [Cast Fail] with the number of newly null cells
    (null count after the cast minus null count before) when that number
    is positive, and otherwise [Cast Success], whose details give the
    physical type before the cast as the engine prints it and the type
    string declared in the schema.  And when the column has to be cast
    and the engine refuses the cast, the run does not return: it ends in
    an exception. *)
Theorem cast_log_per_column schema df col props series type_str target :
  wf_schema schema -> (col, props) ∈ schema ->
  get_column (renamed_table schema df) col = Some series ->
  p_type props = Some type_str ->
  type_map (Some type_str) = Some target ->
  (forall df' report,
     harmonize_or_raise schema df = inr (df', report) ->
     cast_entries col report
     = if decide (dtype series = target) then []
       else
         let casted :=
           mkSeries col target
             (cast_values (dtype series) target (values series)) in
         let failed_rows :=
           (Z.of_nat (null_count casted) - Z.of_nat (null_count series))%Z in
         if decide (0 < failed_rows)%Z then
           [mkAction "Cast Fail" col
              ("Failed to cast " ++ pretty failed_rows ++ " rows to "
                 ++ type_str)]
         else
           [mkAction "Cast Success" col
              ("Cast from " ++ dtype_name (dtype series) ++ " to "
                 ++ type_str)])
  ∧ (dtype series ≠ target ->
     cast_raises target series ≠ None ->
     ∃ e, harmonize_or_raise schema df = inl e).
Proof.
  intros Hwf Hin Hget Htype Hmap. split.
  - intros df' report Hrun.
    apply harmonize_or_raise_returns in Hrun.
    assert (report = (harmonize schema df).2) as -> by (by rewrite <- Hrun).
    by apply (cast_entries_per_column schema df col props series type_str
                target).
  - intros Hne Hraises.
    destruct (harmonize_or_raise schema df) as [e|result] eqn:Hrun;
      [by exists e|].
    exfalso. apply Hraises.
    unfold harmonize_or_raise in Hrun. unfold renamed_table in Hget.
    destruct (resolve_renames schema df) as [rename_map report_logs].
    cbn [fst] in Hget.
    eapply (cast_fold_or_raise_accepts schema _ _ result col props series
              target); [done|done|exact Hrun|done| |done].
    by rewrite Htype.
Qed.

End refused_casts.


(** ** Row filters *)

Section row_filters.
Context `{Backend}.

Lemma select_filter {A} (P : A -> Prop) `{!∀ x, Decision (P x)} (l : list A) :
  select (map (fun x => bool_decide (P x)) l) l = filter P l.
Proof.
  induction l as [|x l IH]; [done|]. cbn [map select].
  rewrite filter_cons. destruct (decide (P x)).
  - rewrite bool_decide_eq_true_2 by done. by rewrite IH.
  - rewrite bool_decide_eq_false_2 by done. by rewrite IH.
Qed.

Lemma length_select {A B} (P : A -> Prop) `{!∀ x, Decision (P x)}
    (l : list A) (k : list B) :
  length l = length k ->
  length (select (map (fun x => bool_decide (P x)) l) k) = length (filter P l).
Proof.
  revert k. induction l as [|x l IH]; intros [|y k] Hlen; try done.
  cbn [map select]. rewrite filter_cons. simpl in Hlen.
  destruct (decide (P x)).
  - rewrite bool_decide_eq_true_2 by done. simpl. f_equal. apply IH. lia.
  - rewrite bool_decide_eq_false_2 by done. apply IH. lia.
Qed.

(** The column [col] of a filtered frame holds the selected cells. *)
Lemma get_column_df_filter pred series (df : DataFrame) col s :
  get_column df col = Some s ->
  get_column (df_filter pred series df) col
  = Some (mkSeries (name s) (dtype s)
            (select (map (fun c => bool_decide (pred c = Some true))
                       (values series)) (values s))).
Proof.
  unfold df_filter. induction df as [|s' rest IH]; [done|].
  cbn [map get_column name].
  destruct (decide (name s' = col)); [by intros [= ->]|done].
Qed.

(** [len(invalid)] is the number of rows of the checked column that
    satisfy the predicate. *)
Lemma height_df_filter pred series (df : DataFrame) :
  wf_df df -> series ∈ df ->
  height (df_filter pred series df)
  = length (filter (fun c => pred c = Some true) (values series)).
Proof.
  intros Hwf Hin. destruct df as [|s0 rest]; [by apply elem_of_nil in Hin|].
  unfold wf_df in Hwf. rewrite Forall_forall in Hwf.
  unfold df_filter. cbn [map height values].
  apply length_select.
  rewrite (Hwf series Hin). symmetry. apply Hwf. left.
Qed.

Lemma df_filter_invalid pred series (df : DataFrame) col :
  wf_df df -> get_column df col = Some series ->
  height (df_filter pred series df)
  = length (filter (fun c => pred c = Some true) (values series))
  ∧ get_column (df_filter pred series df) col
    = Some (mkSeries col (dtype series)
              (filter (fun c => pred c = Some true) (values series))).
Proof.
  intros Hwf Hget.
  destruct (get_column_Some_elem_of _ _ _ Hget) as [Hin Hname]. split.
  - by apply height_df_filter.
  - rewrite (get_column_df_filter _ _ _ _ _ Hget), select_filter.
    by rewrite Hname.
Qed.

(** The example string depends on the frame only through the cells of the
    column asked for. *)
Lemma get_example_msg_column (df df' : DataFrame) col s s' :
  get_column df col = Some s -> get_column df' col = Some s' ->
  values s = values s' ->
  DataValidator._get_example_msg df col = DataValidator._get_example_msg df' col.
Proof.
  intros Hs Hs' Hv. unfold DataValidator._get_example_msg.
  by rewrite Hs, Hs', Hv.
Qed.

End row_filters.

(** ** The validation report *)

Section validation_report.
Context `{Backend}.
Import DataValidator.

(** The report is the concatenation of what each schema column adds. *)
Lemma validate_flat schema df :
  validate schema df = flat_map (validate_column df) schema.
Proof.
  unfold validate.
  assert (forall errors,
    foldl (fun errors entry => errors ++ validate_column df entry) errors schema
    = errors ++ flat_map (validate_column df) schema) as Hgen.
  { induction schema as [|e rest IH]; intros errors; simpl.
    - by rewrite app_nil_r.
    - by rewrite IH, <- app_assoc. }
  apply (Hgen []).
Qed.

(** Each check writes its own name and the column's name on what it finds. *)
Ltac check_key :=
  repeat (case_match || case_decide);
  try (by intros ?%elem_of_nil); by intros ->%list_elem_of_singleton.

Lemma type_check_key col props series x :
  x ∈ type_check col props series -> variable x = col ∧ check x = "Type".
Proof. unfold type_check. check_key. Qed.

Lemma range_check_key df col props series x :
  x ∈ range_check df col props series -> variable x = col ∧ check x = "Range".
Proof. unfold range_check. check_key. Qed.

Lemma allowed_check_key df col props series x :
  x ∈ allowed_check df col props series ->
  variable x = col ∧ check x = "Allowed Values".
Proof. unfold allowed_check. check_key. Qed.

Lemma forbidden_check_key df col props series x :
  x ∈ forbidden_check df col props series ->
  variable x = col ∧ check x = "Forbidden Values".
Proof. unfold forbidden_check. check_key. Qed.

Lemma regex_check_key df col props series x :
  x ∈ regex_check df col props series -> variable x = col ∧ check x = "Regex".
Proof. unfold regex_check. check_key. Qed.

Lemma validate_column_key df e x :
  x ∈ validate_column df e -> variable x = e.1.
Proof.
  destruct e as [col props]. unfold validate_column.
  destruct (get_column df col) as [series|].
  - rewrite !elem_of_app.
    intros [?%type_check_key|[?%range_check_key|[?%allowed_check_key|
            [?%forbidden_check_key|?%regex_check_key]]]]; naive_solver.
  - case_match; [|by intros ?%elem_of_nil].
    by intros ->%list_elem_of_singleton.
Qed.

(** With unique keys, the findings about [col] come from the iteration
    for [col]. *)
Lemma findings_of_validate schema df col props chk :
  wf_schema schema -> (col, props) ∈ schema ->
  findings_of col chk (validate schema df)
  = findings_of col chk (validate_column df (col, props)).
Proof.
  intros Hwf Hin. unfold findings_of. rewrite validate_flat.
  by apply (filter_key_unique variable (fun f => check f = chk) _
              (validate_column_key df)).
Qed.

Lemma findings_for_validate schema df col props :
  wf_schema schema -> (col, props) ∈ schema ->
  findings_for col (validate schema df) = validate_column df (col, props).
Proof.
  intros Hwf Hin. unfold findings_for. rewrite validate_flat.
  rewrite (list_filter_iff _ (fun f => variable f = col ∧ True)) by naive_solver.
  rewrite (filter_key_unique variable (fun _ => True) _
             (validate_column_key df) schema col props) by done.
  apply filter_all. intros x Hx. by apply validate_column_key in Hx.
Qed.

(** Selecting one check from the findings of a present column. *)
Lemma findings_of_present df col props series chk :
  get_column df col = Some series ->
  findings_of col chk (validate_column df (col, props))
  = (if decide (chk = "Type") then type_check col props series else [])
    ++ (if decide (chk = "Range") then range_check df col props series else [])
    ++ (if decide (chk = "Allowed Values")
        then allowed_check df col props series else [])
    ++ (if decide (chk = "Forbidden Values")
        then forbidden_check df col props series else [])
    ++ (if decide (chk = "Regex") then regex_check df col props series else []).
Proof.
  intros Hget. unfold findings_of, validate_column. rewrite Hget.
  rewrite !filter_app.
  repeat f_equal; case_decide as Hchk;
    first [ apply filter_all; intros x Hx
          | apply filter_none; intros x Hx [_ Hc] ].
  all: first [ apply type_check_key in Hx | apply range_check_key in Hx
             | apply allowed_check_key in Hx | apply forbidden_check_key in Hx
             | apply regex_check_key in Hx ];
       destruct Hx as [Hv Hk]; try (split; congruence); congruence.
Qed.

(** A quality check reports the invalid rows of the checked column: their
    number, and examples drawn from them. *)
Lemma quality_finding pred series (df : DataFrame) col chk
    (descr : nat -> string) :
  wf_df df -> get_column df col = Some series ->
  (if decide (height (df_filter pred series df) ≠ 0)
   then [mkFinding col chk (descr (height (df_filter pred series df)))
           (_get_example_msg (df_filter pred series df) col)]
   else [])
  = (if decide (filter (fun c => pred c = Some true) (values series) = [])
     then []
     else [mkFinding col chk
             (descr (length (filter (fun c => pred c = Some true)
                               (values series))))
             (_get_example_msg
                [mkSeries col (dtype series)
                   (filter (fun c => pred c = Some true) (values series))]
                col)]).
Proof.
  intros Hwf Hget.
  destruct (df_filter_invalid pred series df col Hwf Hget) as [Hh Hc].
  rewrite Hh.
  destruct (filter (fun c => pred c = Some true) (values series))
    as [|c0 bad] eqn:Hbad.
  - by rewrite decide_False, decide_True by (simpl; auto).
  - rewrite decide_True, decide_False by done.
    do 2 f_equal.
    eapply get_example_msg_column; [exact Hc| |done].
    simpl. by rewrite decide_True.
Qed.

(** The row predicates of the code select the invalid rows. *)
Lemma range_pred_true low high c :
  range_pred low high c = Some true <-> out_of_range low high c.
Proof.
  unfold range_pred, out_of_range. destruct c as [v|]; simpl; [|done].
  destruct (value_lt v low), (value_gt v high); simpl; naive_solver.
Qed.

Lemma regex_pred_true pattern c :
  regex_pred pattern c = Some true <-> mismatches pattern c.
Proof.
  unfold regex_pred, mismatches. destruct c as [v|]; simpl; [|done].
  destruct (str_contains (py_str v) pattern); simpl; naive_solver.
Qed.





End validation_report.

(** ** Claims about the validator *)

Section validator_claims.
Context `{Backend}.
Import DataValidator.

(** C7. For every schema column absent from the validated table: when
    [optional] is false or unset, the report holds exactly one finding for
    the column, the [Existence] finding with description
    ["Column not found"] and examples ["N/A"], and nothing else; when
    [optional] is true, the report holds no finding for the column. *)
Theorem missing_column schema df col props :
  wf_schema schema -> (col, props) ∈ schema -> col ∉ columns df ->
  (p_optional props = None ∨ p_optional props = Some false ->
     findings_for col (validate schema df)
     = [mkFinding col "Existence" "Column not found" "N/A"])
  ∧ (p_optional props = Some true ->
       findings_for col (validate schema df) = []).
Proof.
  intros Hwf Hin Habsent.
  rewrite (findings_for_validate schema df col props) by done.
  apply get_column_None in Habsent.
  unfold validate_column. rewrite Habsent.
  split; [intros [->| ->]| intros ->]; done.
Qed.

(** C2. For every schema column: a [Regex] finding for the column is in
    the report only if the column is in the table, its physical type is
    [String] and a pattern is declared; when the physical type is not
    [String] there is no [Regex] finding, whatever the pattern; and when
    the check runs (column present, of type [String], pattern declared)
    the report has one [Regex] finding, giving the number of mismatching
    rows and examples drawn from them, exactly when some row holds a
    value that does not match the pattern, and none otherwise. *)
Theorem regex_finding schema df col props :
  wf_schema schema -> wf_df df -> (col, props) ∈ schema ->
  (findings_of col "Regex" (validate schema df) ≠ [] ->
     ∃ series pattern,
       get_column df col = Some series ∧ dtype series = String_
       ∧ p_regex props = Some pattern)
  ∧ (forall series,
       get_column df col = Some series -> dtype series ≠ String_ ->
       findings_of col "Regex" (validate schema df) = [])
  ∧ (forall series pattern,
       get_column df col = Some series -> dtype series = String_ ->
       p_regex props = Some pattern ->
       findings_of col "Regex" (validate schema df)
       = if decide (filter (mismatches pattern) (values series) = []) then []
         else
           [mkFinding col "Regex"
              (pretty (length (filter (mismatches pattern) (values series)))
                 ++ " rows mismatch pattern '" ++ pattern ++ "'")
              (_get_example_msg
                 [mkSeries col String_
                    (filter (mismatches pattern) (values series))] col)]).
Proof.
  intros Hwf Hwfdf Hin.
  rewrite (findings_of_validate schema df col props) by done.
  destruct (get_column df col) as [series|] eqn:Hget.
  - rewrite (findings_of_present df col props series) by done.
    rewrite !decide_False by done. rewrite decide_True by done.
    cbn [app]. unfold regex_check.
    destruct (p_regex props) as [pattern|] eqn:Hre.
    + destruct (decide (dtype series = String_)) as [Hstr|Hnstr].
      * split; [intros _; by exists series, pattern|].
        split; [by intros ? [= <-]|].
        intros ? ? [= <-] _ [= <-].
        rewrite (quality_finding (regex_pred pattern) series df col "Regex"
                   (fun n => (pretty n ++ " rows mismatch pattern '" ++ pattern
                              ++ "'")%string)) by done.
        rewrite (list_filter_iff _ (mismatches pattern))
          by apply regex_pred_true.
        by rewrite Hstr.
      * split; [done|]. split; [done|]. by intros ? ? [= <-].
    + split; [done|]. split; [done|]. intros ? ? _ _ [=].
  - assert (findings_of col "Regex" (validate_column df (col, props)) = [])
      as ->.
    { unfold findings_of, validate_column. rewrite Hget.
      case_match; [|done]. by rewrite filter_cons_False by (intros [_ [=]]). }
    split; [done|]. split; [done|]. intros ? ? [=].
Qed.


End validator_claims.

(** ** Filters the engine refuses *)

Section refused_filters.
Context `{Backend} `{Raises}.
Import DataValidator.










End refused_filters.

(** ** Null cells and example strings *)

Section nulls_and_examples.
Context `{Backend}.
Import DataValidator.

Lemma omap_id_NoDup (l : list Cell) : NoDup l -> NoDup (omap id l).
Proof.
  induction 1 as [|c l Hfresh Hnd IH]; [constructor|].
  destruct c as [v|]; simpl; [|done].
  constructor; [|done]. intros Hv. apply Hfresh.
  apply list_elem_of_omap in Hv as (x & Hx & Hid). simpl in Hid. by subst.
Qed.

Lemma elem_of_omap_id (l : list Cell) v : v ∈ omap id l <-> Some v ∈ l.
Proof.
  rewrite list_elem_of_omap. split.
  - intros (x & Hx & Hid). simpl in Hid. by subst.
  - intros Hv. by exists (Some v).
Qed.

(** A predicate that is not true on null keeps no null cell. *)
Lemma invalid_cells_no_null pred series (df : DataFrame) col :
  wf_df df -> get_column df col = Some series ->
  pred None ≠ Some true ->
  None ∉ invalid_cells pred series df col.
Proof.
  intros Hwf Hget Hnull. unfold invalid_cells.
  destruct (df_filter_invalid pred series df col Hwf Hget) as [_ ->].
  cbn [from_option values]. by intros [? _]%list_elem_of_filter.
Qed.

Lemma filter_all_null (pred : Cell -> option bool) (cells : list Cell) :
  pred None ≠ Some true -> Forall (fun c => c = None) cells ->
  filter (fun c => pred c = Some true) cells = [].
Proof.
  intros Hnull Hall. apply filter_none. intros c Hc.
  rewrite Forall_forall in Hall. by rewrite (Hall c Hc).
Qed.

Lemma range_pred_null low high : range_pred low high None ≠ Some true.
Proof. done. Qed.

Lemma allowed_pred_null allowed actual_dtype :
  allowed_pred allowed actual_dtype None ≠ Some true.
Proof.
  unfold allowed_pred, check_expr.
  by destruct (coerce_to_text allowed actual_dtype).
Qed.

Lemma forbidden_pred_null forbidden actual_dtype :
  forbidden_pred forbidden actual_dtype None ≠ Some true.
Proof.
  unfold forbidden_pred, check_expr.
  by destruct (coerce_to_text forbidden actual_dtype).
Qed.

Lemma regex_pred_null pattern : regex_pred pattern None ≠ Some true.
Proof. done. Qed.

(** C10. For every table and schema and every column present in the
    table: the rows kept as invalid by the [Range], [Allowed Values],
    [Forbidden Values] and [Regex] filters hold no null cell in the
    checked column, whatever the bounds, lists and pattern; and when all
    cells of the column are null the report has no finding of any of
    these four checks for it. *)
Theorem null_rows_not_invalid schema df col props series :
  wf_schema schema -> wf_df df -> (col, props) ∈ schema ->
  get_column df col = Some series ->
  (forall low high, None ∉ invalid_cells (range_pred low high) series df col)
  ∧ (forall allowed,
       None ∉ invalid_cells (allowed_pred allowed (dtype series)) series df col)
  ∧ (forall forbidden,
       None ∉ invalid_cells (forbidden_pred forbidden (dtype series))
                series df col)
  ∧ (forall pattern, None ∉ invalid_cells (regex_pred pattern) series df col)
  ∧ (Forall (fun c => c = None) (values series) ->
     forall chk,
       chk ∈ ["Range"; "Allowed Values"; "Forbidden Values"; "Regex"] ->
       findings_of col chk (validate schema df) = []).
Proof.
  intros Hwf Hwfdf Hin Hget.
  split; [intros; by apply invalid_cells_no_null, range_pred_null|].
  split; [intros; by apply invalid_cells_no_null, allowed_pred_null|].
  split; [intros; by apply invalid_cells_no_null, forbidden_pred_null|].
  split; [intros; by apply invalid_cells_no_null, regex_pred_null|].
  intros Hnull chk Hchk.
  rewrite (findings_of_validate schema df col props) by done.
  rewrite (findings_of_present df col props series) by done.
  assert (forall pred chk' descr, pred None ≠ Some true ->
    (if decide (height (df_filter pred series df) ≠ 0)
     then [mkFinding col chk' (descr (height (df_filter pred series df)))
             (_get_example_msg (df_filter pred series df) col)]
     else []) = []) as Hquiet.
  { intros pred chk' descr Hpred.
    rewrite (quality_finding pred series df col chk' descr) by done.
    by rewrite filter_all_null, decide_True. }
  assert (range_check df col props series = []) as Hrange.
  { unfold range_check. destruct (p_range props) as [[low high]|]; [|done].
    apply (Hquiet (range_pred low high) "Range"
             (fun n => (pretty n ++ " rows outside [" ++ py_str low ++ ", "
                        ++ py_str high ++ "]")%string)).
    apply range_pred_null. }
  assert (allowed_check df col props series = []) as Hallowed.
  { unfold allowed_check. destruct (p_allowed_value props) as [allowed|]; [|done].
    apply (Hquiet (allowed_pred allowed (dtype series)) "Allowed Values"
             (fun n => (pretty n ++ " rows have invalid values")%string)).
    apply allowed_pred_null. }
  assert (forbidden_check df col props series = []) as Hforbidden.
  { unfold forbidden_check.
    destruct (p_not_allowed_value props) as [forbidden|]; [|done].
    apply (Hquiet (forbidden_pred forbidden (dtype series)) "Forbidden Values"
             (fun n => (pretty n ++ " rows found in blacklist")%string)).
    apply forbidden_pred_null. }
  assert (regex_check df col props series = []) as Hregex.
  { unfold regex_check. destruct (p_regex props) as [pattern|]; [|done].
    case_decide; [|done].
    apply (Hquiet (regex_pred pattern) "Regex"
             (fun n => (pretty n ++ " rows mismatch pattern '" ++ pattern
                        ++ "'")%string)).
    apply regex_pred_null. }
  rewrite Hrange, Hallowed, Hforbidden, Hregex.
  rewrite decide_False; [by repeat case_decide|].
  intros ->. set_solver.
Qed.

(** C8. For every frame of invalid rows and column name: when the column
    cannot be read the example string is ["N/A"]; otherwise there is an
    enumeration [vals] of the distinct non-null values of the column such
    that the string is the first three of them (all of them when there
    are at most three) joined with [", "], followed, when there are more
    than three, by [", ... (+N more)"] with [N] the number in excess of
    three.  The function is total: it always returns a string. *)
Theorem example_msg_spec (invalid_df : DataFrame) (col_name : string) :
  match get_column invalid_df col_name with
  | None => _get_example_msg invalid_df col_name = "N/A"
  | Some series =>
      ∃ vals,
        distinct_values vals (values series)
        ∧ _get_example_msg invalid_df col_name
          = (String.concat ", " (map py_str (take 3 vals))
               ++ (if decide (3 < length vals)
                   then ", ... (+" ++ pretty (length vals - 3) ++ " more)"
                   else ""))%string
  end.
Proof.
  unfold _get_example_msg.
  destruct (get_column invalid_df col_name) as [series|]; [|done].
  exists (omap id (unique (values series))). split.
  - split.
    + apply omap_id_NoDup, unique_NoDup.
    + intros v. by rewrite elem_of_omap_id, unique_elem_of.
  - cbn zeta. case_decide; [done|].
    by rewrite string_append_empty_r.
Qed.

End nulls_and_examples.

(** ** Claims about construction *)

Section construction_claims.
Context `{Backend}.

Lemma dict_get_absent items key dflt :
  key ∉ map fst items -> dict_get items key dflt = dflt.
Proof.
  induction items as [|[k v] rest IH]; [done|]. cbn [map fst dict_get].
  intros Hnot. rewrite decide_False by set_solver. apply IH. set_solver.
Qed.

Lemma harmonize_empty_schema df : DataHarmonizer.harmonize [] df = (df, []).
Proof.
  unfold DataHarmonizer.harmonize, DataHarmonizer.resolve_renames,
    DataHarmonizer.apply_renames.
  cbn [foldl]. by rewrite decide_True.
Qed.

(** C3, as the code has it.  When the schema path cannot be opened (the
    document is missing or unreadable) or its content cannot be parsed,
    constructing the harmonizer and constructing the validator each fail
    with the one wrapped error [ValueError "Failed to load schema: cause"]
    carrying the text of the underlying exception, and the run ends in
    that error whatever the table: no table is harmonized or validated. *)
Theorem schema_load_failure (fs : FileSystem) (schema_path cause : string) :
  fs schema_path = OpenFails cause ∨ fs schema_path = ParseFails cause ->
  DataHarmonizer.__init__ fs schema_path
  = inl (ValueError ("Failed to load schema: " ++ cause))
  ∧ DataValidator.__init__ fs schema_path
    = inl (ValueError ("Failed to load schema: " ++ cause))
  ∧ forall df,
      run fs schema_path df
      = inl (ValueError ("Failed to load schema: " ++ cause)).
Proof.
  unfold run, DataHarmonizer.__init__, DataValidator.__init__, init_schema,
    load_schema.
  by intros [-> | ->].
Qed.

(** C9. When the loaded document is a mapping without a top-level
    ["schema"] key, both objects are constructed, without error, on the
    empty schema; and then, for every table, [harmonize] returns the
    table unchanged with an empty report, [validate] returns an empty
    report, and so does the whole run. *)
Theorem missing_schema_key (fs : FileSystem) (schema_path : string) items :
  fs schema_path = Loaded (YamlMapping items) ->
  "schema" ∉ map fst items ->
  DataHarmonizer.__init__ fs schema_path = inr (TVDict [])
  ∧ DataValidator.__init__ fs schema_path = inr (TVDict [])
  ∧ forall df,
      DataHarmonizer.harmonize_self (TVDict []) df = inr (df, [])
      ∧ DataValidator.validate_self (TVDict []) df = inr []
      ∧ run fs schema_path df = inr (df, [], []).
Proof.
  intros Hfs Hkey.
  assert (init_schema fs schema_path = inr (TVDict [])) as Hinit.
  { unfold init_schema, load_schema. rewrite Hfs.
    by rewrite dict_get_absent. }
  split; [done|]. split; [done|]. intros df.
  assert (DataHarmonizer.harmonize_self (TVDict []) df = inr (df, [])) as Hh.
  { unfold DataHarmonizer.harmonize_self. cbn [schema_items].
    by rewrite harmonize_empty_schema. }
  split; [done|]. split; [done|].
  unfold run, DataHarmonizer.__init__, DataValidator.__init__.
  by rewrite Hinit, Hh.
Qed.

End construction_claims.

(** ** Runs on the sample data *)

Section sample_runs.
#[local] Existing Instance Reference.backend.
Import Samples.

Lemma NoDup_by_decide `{EqDecision A} (l : list A) :
  bool_decide (NoDup l) = true -> NoDup l.
Proof. apply bool_decide_eq_true_1. Qed.

Lemma wf_by_decide (df : DataFrame) :
  bool_decide (Forall (fun s => length (values s) = height df) df) = true ->
  wf_df df.
Proof. apply bool_decide_eq_true_1. Qed.

Lemma people_schema_wf : wf_schema people_schema.
Proof. by apply NoDup_by_decide. Qed.

Lemma people_df_wf : wf_df people_df.
Proof. by apply wf_by_decide. Qed.

(** The end-to-end scenario: one rename, one failed cast of one row, and
    one range finding for two rows. *)
Example scenario_reports :
  run (fun _ => Loaded (YamlMapping [("schema", TVDict scenario_schema)]))
      "data_schema.yaml" scenario_df
  = inr ([mkSeries "age" Int64
            [Some (VInt 25); None; Some (VInt 200); Some (VInt (-5))]],
         [mkAction "Rename" "age" "Renamed from 'Age'";
          mkAction "Cast Fail" "age" "Failed to cast 1 rows to integer"],
         [mkFinding "age" "Range" "2 rows outside [0, 120]" "200, -5"]).
Proof. vm_compute. reflexivity. Qed.

(** Five distinct invalid values give three examples and [(+2 more)]. *)
Example example_cap :
  DataValidator._get_example_msg
    [mkSeries "c" Int64
       (map (fun z => Some (VInt z)) [1; 2; 3; 4; 5; 1; 2]%Z)] "c"
  = "3, 4, 5, ... (+2 more)".
Proof. vm_compute. reflexivity. Qed.

(** A table already in shape: nothing is logged by either step. *)
Example cast_noop :
  (DataHarmonizer.harmonize numerals_schema
     [mkSeries "n" Int64 [Some (VInt 1); None]]).2 = [].
Proof. vm_compute. reflexivity. Qed.

(** A mapping whose ["schema"] entry is not a mapping is accepted at
    construction; the run fails only when the table is harmonized. *)
Example schema_entry_not_mapping :
  DataHarmonizer.__init__ fs_null_schema "data_schema.yaml"
  = inr (TVOther "NoneType")
  ∧ run fs_null_schema "data_schema.yaml" people_df
    = inl (AttributeError "'NoneType' object has no attribute 'items'").
Proof. split; vm_compute; reflexivity. Qed.

(** C1. With two canonical columns that declare the same alias, both
    absent from a table that has the alias, the report holds two [Rename]
    rows while the batch rename changes the name of one column only: the
    first row reports a rename that is not applied. *)
Theorem shared_alias_rename_count :
  DataHarmonizer.harmonize shared_alias_schema shared_alias_df
  = ([mkSeries "b" Int64 [Some (VInt 1)]],
     [mkAction "Rename" "a" "Renamed from 'x'";
      mkAction "Rename" "b" "Renamed from 'x'"])
  ∧ length (filter (fun e => action e = "Rename")
              (DataHarmonizer.harmonize shared_alias_schema shared_alias_df).2)
    = 2
  ∧ renamed_columns shared_alias_df
      (DataHarmonizer.harmonize shared_alias_schema shared_alias_df).1
    = 1
  ∧ get_column
      (DataHarmonizer.harmonize shared_alias_schema shared_alias_df).1 "a"
    = None.
Proof. repeat split; vm_compute; reflexivity. Qed.

(** C5, counterexample to the claim as stated: a text column cast to the
    schema type [integer] becomes [Int64] without new nulls; the one row
    logged for it is [Cast Success] with details
    ["Cast from String to integer"], which names the physical type before
    the cast but not the physical type after it. *)
Lemma cast_success_names_schema_type :
  get_column numerals_df "n" = Some (mkSeries "n" String_
                                       [Some (VStr "1"); Some (VStr "2")])
  ∧ dtype <$> get_column
                (DataHarmonizer.harmonize numerals_schema numerals_df).1 "n"
    = Some Int64
  ∧ cast_entries "n" (DataHarmonizer.harmonize numerals_schema numerals_df).2
    = [mkAction "Cast Success" "n" "Cast from String to integer"]
  ∧ ¬ (forall e,
         e ∈ cast_entries "n"
               (DataHarmonizer.harmonize numerals_schema numerals_df).2 ->
         action e = "Cast Success" ->
         names_both_dtypes String_ Int64 e).
Proof.
  split; [reflexivity|]. split; [vm_compute; reflexivity|].
  split; [vm_compute; reflexivity|].
  intros Hclaim.
  destruct (Hclaim (mkAction "Cast Success" "n" "Cast from String to integer"))
    as [_ Hafter].
  - assert (cast_entries "n"
              (DataHarmonizer.harmonize numerals_schema numerals_df).2
            = [mkAction "Cast Success" "n" "Cast from String to integer"])
      as -> by (vm_compute; reflexivity).
    by apply list_elem_of_singleton.
  - reflexivity.
  - vm_compute in Hafter. discriminate Hafter.
Qed.

(** C3, counterexample to the claim as stated: an empty schema file
    parses to a document that is not a mapping; construction then fails
    with an attribute error that is not the wrapped loader error.  And a
    mapping whose ["schema"] entry is null is accepted at construction:
    nothing fails before the table is handed to [harmonize]. *)
Lemma invalid_document_not_wrapped :
  schema_document_invalid (fs_empty_document "data_schema.yaml")
  ∧ DataHarmonizer.__init__ fs_empty_document "data_schema.yaml"
    = inl (AttributeError "'NoneType' object has no attribute 'get'")
  ∧ ¬ fails_wrapped
        (DataHarmonizer.__init__ fs_empty_document "data_schema.yaml")
  ∧ ¬ fails_wrapped
        (DataValidator.__init__ fs_empty_document "data_schema.yaml")
  ∧ schema_document_invalid (fs_null_schema "data_schema.yaml")
  ∧ DataHarmonizer.__init__ fs_null_schema "data_schema.yaml"
    = inr (TVOther "NoneType")
  ∧ DataValidator.__init__ fs_null_schema "data_schema.yaml"
    = inr (TVOther "NoneType").
Proof.
  split; [exact I|]. split; [reflexivity|].
  split; [intros [cause Hcause]; vm_compute in Hcause; discriminate Hcause|].
  split; [intros [cause Hcause]; vm_compute in Hcause; discriminate Hcause|].
  split; [by exists "NoneType"|]. split; reflexivity.
Qed.

End sample_runs.

(** ** The claims at the sample data *)

Section witnesses.
#[local] Existing Instance Reference.backend.
#[local] Existing Instance ReferenceRaises.raises.
Import Samples MoreSamples.

Lemma cast_log_per_column_witness :
  wf_schema people_schema
  ∧ ("age", age_props) ∈ people_schema
  ∧ get_column (renamed_table people_schema people_df) "age"
    = Some (mkSeries "age" String_
              [Some (VStr "25"); Some (VStr "bad"); Some (VStr "200");
               Some (VStr "-5")])
  ∧ p_type age_props = Some "integer"
  ∧ DataHarmonizer.type_map (Some "integer") = Some Int64
  ∧ ∃ df' report,
      harmonize_or_raise people_schema people_df = inr (df', report)
      ∧ cast_entries "age" report
        = [mkAction "Cast Fail" "age" "Failed to cast 1 rows to integer"].
Proof.
  assert (get_column (renamed_table people_schema people_df) "age"
          = Some (mkSeries "age" String_
                    [Some (VStr "25"); Some (VStr "bad"); Some (VStr "200");
                     Some (VStr "-5")])) as Hget
    by (vm_compute; reflexivity).
  split; [exact people_schema_wf|]. split; [left|]. split; [exact Hget|].
  split; [reflexivity|]. split; [reflexivity|].
  destruct (harmonize_or_raise people_schema people_df) as [e|[df' report]]
    eqn:Hrun; [vm_compute in Hrun; discriminate Hrun|].
  exists df', report. split; [reflexivity|].
  assert (("age", age_props) ∈ people_schema) as Hin by left.
  destruct (cast_log_per_column people_schema people_df "age" age_props _
              "integer" Int64 people_schema_wf Hin Hget eq_refl eq_refl)
    as [Hreturns _].
  etransitivity; [exact (Hreturns df' report Hrun)|].
  vm_compute. reflexivity.
Defined.

Lemma missing_column_witness :
  wf_schema people_schema
  ∧ ("id", id_props) ∈ people_schema
  ∧ ("id" ∉ columns people_df)
  ∧ findings_for "id" (DataValidator.validate people_schema people_df)
    = [mkFinding "id" "Existence" "Column not found" "N/A"].
Proof.
  assert (("id", id_props) ∈ people_schema) as Hin.
  { do 4 right. left. }
  assert ("id" ∉ columns people_df) as Habsent.
  { apply (bool_decide_eq_false_1 _). vm_compute. reflexivity. }
  split; [exact people_schema_wf|]. split; [exact Hin|].
  split; [exact Habsent|].
  apply (missing_column people_schema people_df "id" id_props
           people_schema_wf Hin Habsent).
  left. reflexivity.
Defined.

Lemma regex_finding_witness :
  wf_schema people_schema
  ∧ wf_df people_df
  ∧ ("email", email_props) ∈ people_schema
  ∧ findings_of "email" "Regex" (DataValidator.validate people_schema people_df)
    = [mkFinding "email" "Regex" "1 rows mismatch pattern '@'" "nope"].
Proof.
  assert (("email", email_props) ∈ people_schema) as Hin.
  { right. left. }
  split; [exact people_schema_wf|]. split; [exact people_df_wf|].
  split; [exact Hin|].
  destruct (regex_finding people_schema people_df "email" email_props
              people_schema_wf people_df_wf Hin) as (_ & _ & Hruns).
  etransitivity.
  - apply (Hruns (mkSeries "email" String_
                    [Some (VStr "a@b"); Some (VStr "nope"); None;
                     Some (VStr "c@d")]) "@"); reflexivity.
  - vm_compute. reflexivity.
Defined.


(** A text column declared boolean: the engine has no such conversion,
    and [harmonize] ends in its exception instead of logging a cast. *)
Example refused_cast_ends_run :
  ∃ msg,
    harmonize_or_raise flags_schema flags_df = inl (InvalidOperationError msg).
Proof. eexists. vm_compute. reflexivity. Qed.

(** A timestamp column declared integer: the finding prints the column's
    type with its parameters. *)
Example stamps_type_finding :
  validate_or_raise stamps_schema stamps_df
  = inr [mkFinding "seen" "Type"
           "Expected integer, got Datetime(time_unit='us', time_zone=None)"
           "N/A"].
Proof. vm_compute. reflexivity. Qed.


Lemma null_rows_not_invalid_witness :
  wf_schema people_schema
  ∧ wf_df people_df
  ∧ ("note", note_props) ∈ people_schema
  ∧ get_column people_df "note"
    = Some (mkSeries "note" String_ [None; None; None; None])
  ∧ forall chk,
      chk ∈ ["Range"; "Allowed Values"; "Forbidden Values"; "Regex"] ->
      findings_of "note" chk (DataValidator.validate people_schema people_df)
      = [].
Proof.
  assert (("note", note_props) ∈ people_schema) as Hin.
  { do 3 right. left. }
  split; [exact people_schema_wf|]. split; [exact people_df_wf|].
  split; [exact Hin|]. split; [reflexivity|].
  destruct (null_rows_not_invalid people_schema people_df "note" note_props _
              people_schema_wf people_df_wf Hin eq_refl)
    as (_ & _ & _ & _ & Hquiet).
  apply Hquiet. cbn [values]. repeat constructor.
Defined.

Lemma schema_load_failure_witness :
  fs_missing "data_schema.yaml"
  = OpenFails "[Errno 2] No such file or directory: 'data_schema.yaml'"
  ∧ forall df,
      run fs_missing "data_schema.yaml" df
      = inl (ValueError
               "Failed to load schema: [Errno 2] No such file or directory: 'data_schema.yaml'").
Proof.
  split; [reflexivity|].
  apply (schema_load_failure fs_missing "data_schema.yaml"
           "[Errno 2] No such file or directory: 'data_schema.yaml'").
  left. reflexivity.
Defined.

Lemma missing_schema_key_witness :
  fs_other_key "data_schema.yaml"
  = Loaded (YamlMapping [("columns", TVDict people_schema)])
  ∧ ("schema" ∉ map fst [("columns", TVDict people_schema)])
  ∧ run fs_other_key "data_schema.yaml" people_df = inr (people_df, [], []).
Proof.
  assert ("schema" ∉ map fst [("columns", TVDict people_schema)]) as Hkey.
  { apply (bool_decide_eq_false_1 _). vm_compute. reflexivity. }
  split; [reflexivity|]. split; [exact Hkey|].
  apply (missing_schema_key fs_other_key "data_schema.yaml"
           [("columns", TVDict people_schema)] eq_refl Hkey).
Defined.

End witnesses.

(** * Further properties *)

(** ** The rename map *)

Section rename_map.
Import DataHarmonizer.

Implicit Types (df_cols : gset string) (st : gmap string string * list ActionLog).

Lemma resolve_fold_from df_cols (done_ rest : Schema) st :
  NoDup (map fst (done_ ++ rest)) ->
  rename_map_from done_ st.1 ->
  rename_map_from (done_ ++ rest) (foldl (resolve_column df_cols) st rest).1.
Proof.
  revert done_ st. induction rest as [|[col props] rest IH];
    intros done_ st Hnd Hfrom.
  { by rewrite app_nil_r. }
  cbn [foldl].
  replace (done_ ++ (col, props) :: rest)
    with ((done_ ++ [(col, props)]) ++ rest) in *
    by (by rewrite <- app_assoc).
  apply IH; [done|].
  assert (rename_map_from (done_ ++ [(col, props)]) st.1) as Hweak.
  { destruct Hfrom as [Horigin Hinj]. split; [|done].
    intros a c Hac. destruct (Horigin a c Hac) as (p & Hp & Ha).
    exists p. split; [|done]. apply elem_of_app. by left. }
  unfold resolve_column. case_decide; [done|].
  destruct (scan_aliases_cases df_cols col (default [] (p_aliases props)) st)
    as [[_ ->]|(pre & alias & post & Hsplit & _ & _ & ->)]; [done|].
  cbn [fst].
  assert (forall a, st.1 !! a ≠ Some col) as Hfresh.
  { intros a Ha. destruct Hfrom as [Horigin _].
    destruct (Horigin a col Ha) as (p & Hp & _).
    rewrite fmap_app in Hnd. apply NoDup_app in Hnd as (Hnd & _ & _).
    rewrite fmap_app in Hnd. apply NoDup_app in Hnd as (_ & Hdisj & _).
    apply (Hdisj col).
    - by apply (list_elem_of_fmap_2 fst _ (col, p)).
    - cbn. left. }
  destruct Hweak as [Horigin Hinj]. split.
  - intros a c. rewrite lookup_insert. case_decide as Heq.
    + intros [= <-]. subst a. exists props. split.
      * apply elem_of_app. right. left.
      * rewrite Hsplit. apply elem_of_app. right. left.
    + apply Horigin.
  - intros a1 a2 c. rewrite !lookup_insert.
    repeat case_decide; subst; intros Hfirst Hsecond; simplify_eq; try done.
    + by destruct (Hfresh a2).
    + by destruct (Hfresh a1).
    + by eapply Hinj.
Qed.

Lemma resolve_renames_from schema df :
  wf_schema schema -> rename_map_from schema (resolve_renames schema df).1.
Proof.
  intros Hwf. unfold resolve_renames.
  apply (resolve_fold_from _ [] schema (∅, [])); [done|].
  split; intros *; cbn [fst]; by rewrite lookup_empty.
Qed.

(** The column names after the batch rename. *)
Lemma columns_rename rename_map (df : DataFrame) :
  columns (rename rename_map df)
  = map (fun n => default n (rename_map !! n)) (columns df).
Proof.
  unfold columns, rename. rewrite !map_map. apply map_ext.
  intros s. by destruct (rename_map !! name s).
Qed.

(** A name that is neither renamed nor the target of a rename still
    denotes the same column. *)
Lemma get_column_rename_other rename_map (df : DataFrame) n :
  rename_map !! n = None -> (forall a, rename_map !! a ≠ Some n) ->
  get_column (rename rename_map df) n = get_column df n.
Proof.
  intros Hkey Hval. unfold rename.
  induction df as [|s df IH]; [done|]. cbn [map get_column].
  destruct (decide (name s = n)) as [Heq|Hne].
  - rewrite Heq, Hkey. by rewrite decide_True.
  - rewrite <- IH. destruct (rename_map !! name s) as [c|] eqn:Hlook.
    + cbn [name]. rewrite decide_False; [done|].
      intros <-. by apply (Hval (name s)).
    + by rewrite decide_False.
Qed.

End rename_map.

(** ** The harmonized table *)

Section harmonized_table.
Context `{Backend}.
Import DataHarmonizer.

(** An iteration of the cast loop either leaves the state alone or casts
    one present column of another type and logs one row for it. *)
Lemma cast_step_cases df logs col props :
  (cast_step (df, logs) (col, props) = (df, logs)
   ∧ forall series target,
       get_column df col = Some series ->
       type_map (p_type props) = Some target -> dtype series = target)
  ∨ (∃ series target entry,
       get_column df col = Some series
       ∧ type_map (p_type props) = Some target
       ∧ dtype series ≠ target
       ∧ column entry = col
       ∧ (action entry = "Cast Fail" ∨ action entry = "Cast Success")
       ∧ cast_step (df, logs) (col, props)
         = (cast_column col target df, logs ++ [entry])).
Proof.
  unfold cast_step.
  destruct (get_column df col) as [series|]; [|by left].
  destruct (type_map (p_type props)) as [target|]; [|by left].
  destruct (decide (dtype series ≠ target)) as [Hne|Heq].
  - right. exists series, target. cbn zeta.
    case_decide; eexists; split_and!;
      [done|done|done| | |reflexivity|done|done|done| | |reflexivity];
      cbn; auto.
  - left. split; [done|]. intros ? ? [= <-] [= <-].
    by destruct (decide (dtype series = target)).
Qed.

Lemma cast_fold_frame schema df logs n :
  n ∉ map fst schema ->
  get_column (foldl cast_step (df, logs) schema).1 n = get_column df n.
Proof.
  revert df logs. induction schema as [|[col props] rest IH];
    intros df logs Hn; [done|].
  cbn [foldl]. cbn [map fst] in Hn. apply not_elem_of_cons in Hn as [Hne Hn].
  destruct (cast_step (df, logs) (col, props)) as [df' logs'] eqn:Hstep.
  rewrite IH by done.
  pose proof (cast_step_frame df (col, props) n Hne) as Hframe.
  by rewrite <- (cast_step_fst df logs), Hstep in Hframe.
Qed.

(** With unique keys, the column [col] of the result is the one the
    iteration for [col] leaves, and that iteration sees the column as it
    was before the loop. *)
Lemma cast_fold_column schema df logs col props :
  wf_schema schema -> (col, props) ∈ schema ->
  get_column (foldl cast_step (df, logs) schema).1 col
  = match get_column df col, type_map (p_type props) with
    | Some series, Some target =>
        if decide (dtype series = target) then Some series
        else Some (mkSeries (name series) target
                     (cast_values (dtype series) target (values series)))
    | other, _ => other
    end.
Proof.
  unfold wf_schema. revert df logs.
  induction schema as [|[col' props'] rest IH]; intros df logs Hnd Hin.
  { by apply elem_of_nil in Hin. }
  cbn [foldl map fst] in *. apply NoDup_cons in Hnd as [Hfresh Hnd].
  destruct (cast_step (df, logs) (col', props')) as [df' logs'] eqn:Hstep.
  apply elem_of_cons in Hin as [[= <- <-]|Hin].
  - rewrite cast_fold_frame by done.
    destruct (cast_step_cases df logs col props)
      as [[Hsame Htyped]|(series & target & entry & Hget & Hmap & Hne & _ & _
                          & Hcast)].
    + rewrite Hstep in Hsame. injection Hsame as -> ->.
      destruct (get_column df col) as [series|] eqn:Hget; [|done].
      destruct (type_map (p_type props)) as [target|] eqn:Hmap; [|done].
      by rewrite decide_True by (by eapply Htyped).
    + rewrite Hstep in Hcast. injection Hcast as -> ->.
      rewrite get_column_cast_eq, Hget, Hmap. cbn.
      by rewrite decide_False.
  - assert (col ≠ col') as Hne.
    { intros ->. apply Hfresh.
      by apply (list_elem_of_fmap_2 fst _ (col', props)). }
    rewrite IH by done.
    pose proof (cast_step_frame df (col', props') col Hne) as Hframe.
    rewrite <- (cast_step_fst df logs), Hstep in Hframe. cbn [fst] in Hframe.
    by rewrite Hframe.
Qed.

(** The cast loop logs nothing about a column the table lacks. *)
Lemma cast_logs_absent schema df col :
  get_column df col = None ->
  forall x, x ∈ cast_logs df schema -> column x ≠ col.
Proof.
  revert df. induction schema as [|[col' props'] rest IH];
    intros df Hget x Hx; [by apply elem_of_nil in Hx|].
  cbn [cast_logs] in Hx. apply elem_of_app in Hx as [Hx|Hx].
  - destruct (cast_step_cases df [] col' props')
      as [[Hsame _]|(s0 & t0 & e0 & Hg0 & _ & _ & Hcol & _ & Hcast)].
    + rewrite Hsame in Hx. by apply elem_of_nil in Hx.
    + rewrite Hcast in Hx. cbn in Hx.
      apply list_elem_of_singleton in Hx as ->. congruence.
  - eapply IH; [|exact Hx].
    destruct (decide (col = col')) as [->|Hne].
    + destruct (cast_step_cases df [] col' props')
        as [[-> _]|(s0 & t0 & e0 & Hg0 & _)]; [done|congruence].
    + by rewrite (cast_step_frame df (col', props') col Hne).
Qed.

Lemma harmonize_fst schema df :
  (harmonize schema df).1
  = (foldl cast_step
       (renamed_table schema df, (resolve_renames schema df).2) schema).1.
Proof.
  unfold harmonize, renamed_table.
  by destruct (resolve_renames schema df) as [rename_map report_logs].
Qed.

Lemma columns_harmonize schema df :
  columns (harmonize schema df).1
  = map (fun n => default n ((resolve_renames schema df).1 !! n)) (columns df).
Proof.
  rewrite harmonize_fst, columns_cast_fold. unfold renamed_table.
  by rewrite apply_renames_rename, columns_rename.
Qed.

(** A map over the columns that keeps each column's length keeps the
    shape of the table. *)
Lemma wf_df_map (f : Series -> Series) (df : DataFrame) :
  (forall s, length (values (f s)) = length (values s)) ->
  wf_df df -> wf_df (map f df) ∧ height (map f df) = height df.
Proof.
  intros Hlen Hwf. destruct df as [|s0 df]; [done|].
  unfold wf_df in *. cbn [map height] in *. rewrite Hlen. split; [|done].
  apply Forall_forall. intros s' Hs'.
  rewrite Forall_forall in Hwf.
  change (f s0 :: map f df) with (f <$> (s0 :: df)) in Hs'.
  apply list_elem_of_fmap in Hs' as (s & -> & Hs).
  rewrite Hlen. by apply Hwf.
Qed.

Lemma wf_df_cast_fold schema df logs :
  (forall from to_ cells,
     length (cast_values from to_ cells) = length cells) ->
  wf_df df ->
  wf_df (foldl cast_step (df, logs) schema).1
  ∧ height (foldl cast_step (df, logs) schema).1 = height df.
Proof.
  intros Hcast. revert df logs.
  induction schema as [|[col props] rest IH]; intros df logs Hwf; [done|].
  cbn [foldl].
  destruct (cast_step_cases df logs col props)
    as [[-> _]|(series & target & entry & _ & _ & _ & _ & _ & ->)];
    [by apply IH|].
  destruct (wf_df_map
              (fun s => if decide (name s = col)
                        then mkSeries (name s) target
                               (cast_values (dtype s) target (values s))
                        else s) df) as [Hwf' Hheight]; [|done|].
  { intros s. case_decide; [apply Hcast|done]. }
  destruct (IH (cast_column col target df) (logs ++ [entry]) Hwf')
    as [Hwf'' Hheight''].
  split; [done|]. by rewrite Hheight''.
Qed.

End harmonized_table.

(** ** What the harmonizer guarantees *)

Section harmonizer_guarantees.
Context `{Backend}.
Import DataHarmonizer.

(** X1. When the schema has unique keys and the table's column names are
    distinct, the column names of the harmonized table are distinct too:
    the batch rename never produces two columns of the same name. *)
Theorem harmonize_distinct_columns schema df :
  wf_schema schema -> NoDup (columns df) ->
  NoDup (columns (harmonize schema df).1).
Proof.
  intros Hwf Hnd. rewrite columns_harmonize.
  destruct (resolve_renames_from schema df Hwf) as [_ Hinj].
  pose proof (resolve_renames_pending schema df) as Hok.
  apply (NoDup_fmap_2_strong
           (fun n => default n ((resolve_renames schema df).1 !! n)));
    [|done].
  intros n1 n2 Hn1 Hn2.
  destruct ((resolve_renames schema df).1 !! n1) as [c1|] eqn:H1,
           ((resolve_renames schema df).1 !! n2) as [c2|] eqn:H2;
    simpl.
  - intros ->. exact (Hinj n1 n2 c2 H1 H2).
  - intros ->. apply Hok in H1 as [_ Hnew]. exfalso. apply Hnew.
    by apply elem_of_list_to_set.
  - intros <-. apply Hok in H2 as [_ Hnew]. exfalso. apply Hnew.
    by apply elem_of_list_to_set.
  - done.
Qed.

(** X2. When the engine's cast keeps the length of a column, harmonizing
    a well-shaped table gives a well-shaped table with the same number of
    rows and the same number of columns: no row and no column is dropped
    or added. *)
Theorem harmonize_keeps_shape schema df :
  (forall from to_ cells,
     length (cast_values from to_ cells) = length cells) ->
  wf_df df ->
  wf_df (harmonize schema df).1
  ∧ height (harmonize schema df).1 = height df
  ∧ length (harmonize schema df).1 = length df.
Proof.
  intros Hcast Hwf.
  assert (wf_df (renamed_table schema df)
          ∧ height (renamed_table schema df) = height df) as [Hwf' Hheight].
  { unfold renamed_table. rewrite apply_renames_rename. unfold rename.
    apply wf_df_map; [|done]. intros s. by case_match. }
  rewrite harmonize_fst.
  destruct (wf_df_cast_fold schema (renamed_table schema df)
              (resolve_renames schema df).2 Hcast Hwf') as [Hwf'' Hheight''].
  split; [done|]. split; [by rewrite Hheight''|].
  rewrite <- harmonize_fst.
  rewrite <- (length_map name (harmonize schema df).1).
  fold (columns (harmonize schema df).1).
  rewrite columns_harmonize. unfold columns. by rewrite !length_map.
Qed.

(** X3. A column whose name is neither a canonical name nor an alias
    declared in the schema comes out of [harmonize] exactly as it went
    in. *)
Theorem harmonize_other_columns schema df n :
  wf_schema schema ->
  n ∉ map fst schema -> n ∉ declared_aliases schema ->
  get_column (harmonize schema df).1 n = get_column df n.
Proof.
  intros Hwf Hkey Halias.
  destruct (resolve_renames_from schema df Hwf) as [Horigin _].
  rewrite harmonize_fst, cast_fold_frame by done.
  unfold renamed_table. rewrite apply_renames_rename.
  apply get_column_rename_other.
  - destruct ((resolve_renames schema df).1 !! n) as [c|] eqn:Hlook; [|done].
    destruct (Horigin n c Hlook) as (props & Hin & Hn).
    exfalso. apply Halias. unfold declared_aliases.
    apply list_elem_of_In, in_flat_map. exists (c, props).
    split; by apply list_elem_of_In.
  - intros a Hlook. destruct (Horigin a n Hlook) as (props & Hin & _).
    apply Hkey. by apply (list_elem_of_fmap_2 fst _ (n, props)).
Qed.

(** X4. After [harmonize], every schema column that is present and whose
    declared type maps to a target physical type has that physical
    type. *)
Theorem harmonize_target_types schema df col props series target :
  wf_schema schema -> (col, props) ∈ schema ->
  type_map (p_type props) = Some target ->
  get_column (harmonize schema df).1 col = Some series ->
  dtype series = target.
Proof.
  intros Hwf Hin Hmap. rewrite harmonize_fst.
  rewrite (cast_fold_column schema _ _ col props) by done.
  rewrite Hmap.
  destruct (get_column (renamed_table schema df) col) as [s|]; [|done].
  case_decide; intros [= <-]; done.
Qed.

(** X5. A schema column whose type string is missing or unknown is
    skipped by the type-coercion step: the step logs nothing for it and
    leaves the column as it is after renaming. *)
Theorem unknown_type_skipped schema df col props :
  wf_schema schema -> (col, props) ∈ schema ->
  type_map (p_type props) = None ->
  cast_entries col (harmonize schema df).2 = []
  ∧ get_column (harmonize schema df).1 col
    = get_column (renamed_table schema df) col.
Proof.
  intros Hwf Hin Hmap. split.
  - destruct (get_column (renamed_table schema df) col) as [series|] eqn:Hget.
    + rewrite (cast_entries_harmonize schema df col props series) by done.
      unfold cast_step. cbn [get_column].
      destruct (decide (name series = col)); by rewrite ?Hmap.
    + rewrite harmonize_report. unfold cast_entries. rewrite filter_app.
      rewrite (filter_none _ (flat_map _ _)).
      2:{ intros x Hx [_ Ha].
          apply list_elem_of_In, in_flat_map in Hx as (e & _ & Hx).
          by apply list_elem_of_In, resolve_column_key in Hx as [_ ?]. }
      cbn [app]. apply filter_none. intros x Hx [Hc _].
      by apply (cast_logs_absent schema _ col Hget x).
  - rewrite harmonize_fst.
    rewrite (cast_fold_column schema _ _ col props) by done.
    rewrite Hmap. by destruct (get_column (renamed_table schema df) col).
Qed.

End harmonizer_guarantees.

(** ** Tables the harmonizer has nothing to do on *)

Section idle_runs.
Context `{Backend}.
Import DataHarmonizer.

Lemma not_elem_of_columns_set (df : DataFrame) (l : list string) :
  Forall (fun a => a ∉ columns df) l ->
  Forall (fun a => a ∉ (list_to_set (columns df) : gset string)) l.
Proof.
  intros Hl. eapply Forall_impl; [exact Hl|]. intros a Ha Hin.
  apply Ha. by apply elem_of_list_to_set in Hin.
Qed.

Lemma scan_aliases_idle df_cols col aliases st :
  Forall (fun a => a ∉ df_cols) aliases ->
  scan_aliases df_cols col aliases st = st.
Proof.
  induction 1 as [|a rest Ha _ IH]; [done|].
  cbn [scan_aliases]. by rewrite decide_False.
Qed.

Lemma resolve_fold_idle schema (df : DataFrame) st :
  (forall col props,
     (col, props) ∈ schema ->
     col ∈ columns df
     ∨ Forall (fun a => a ∉ columns df) (default [] (p_aliases props))) ->
  foldl (resolve_column (list_to_set (columns df))) st schema = st.
Proof.
  induction schema as [|[col props] rest IH]; intros Hidle; [done|].
  cbn [foldl].
  assert (resolve_column (list_to_set (columns df)) st (col, props) = st)
    as ->.
  { unfold resolve_column. case_decide as Hcol; [done|].
    destruct (Hidle col props) as [Hin|Hnone]; [left| |].
    - exfalso. apply Hcol. by apply elem_of_list_to_set.
    - by apply scan_aliases_idle, not_elem_of_columns_set. }
  apply IH. intros c p Hin. apply Hidle. by right.
Qed.

Lemma cast_fold_idle schema df logs :
  (forall col props series target,
     (col, props) ∈ schema ->
     get_column df col = Some series ->
     type_map (p_type props) = Some target -> dtype series = target) ->
  foldl cast_step (df, logs) schema = (df, logs).
Proof.
  induction schema as [|[col props] rest IH]; intros Htyped; [done|].
  cbn [foldl].
  destruct (cast_step_cases df logs col props)
    as [[-> _]|(series & target & entry & Hget & Hmap & Hne & _)].
  - apply IH. intros c p s t Hin. apply Htyped. by right.
  - exfalso. apply Hne. eapply Htyped; [left|done..].
Qed.

Lemma settled_fixpoint schema df :
  settled schema df -> harmonize schema df = (df, []).
Proof.
  intros Hsettled. unfold harmonize, resolve_renames.
  rewrite resolve_fold_idle by (intros c p Hin; by apply Hsettled).
  unfold apply_renames. rewrite decide_True by done.
  apply cast_fold_idle. intros c p s t Hin. by apply Hsettled.
Qed.

Lemma no_rename_rows_idle schema (df : DataFrame) :
  flat_map (fun e => (resolve_column (list_to_set (columns df)) (∅, []) e).2)
    schema = [] ->
  forall col props,
    (col, props) ∈ schema ->
    col ∈ columns df
    ∨ Forall (fun a => a ∉ columns df) (default [] (p_aliases props)).
Proof.
  induction schema as [|[col' props'] rest IH]; intros Hnil col props Hin.
  { by apply elem_of_nil in Hin. }
  cbn [flat_map] in Hnil. apply app_eq_nil in Hnil as [Hhead Hrest].
  apply elem_of_cons in Hin as [[= -> ->]|Hin]; [|by apply IH].
  unfold resolve_column in Hhead. case_decide as Hcol.
  { left. by apply elem_of_list_to_set in Hcol. }
  destruct (scan_aliases_cases (list_to_set (columns df)) col'
              (default [] (p_aliases props')) (∅, []))
    as [[Hnone _]|(pre & alias & post & _ & _ & _ & Hscan)].
  - right. eapply Forall_impl; [exact Hnone|]. intros a Ha Hin.
    apply Ha. by apply elem_of_list_to_set.
  - rewrite Hscan in Hhead. by destruct (app_cons_not_nil _ _ _ (eq_sym Hhead)).
Qed.

Lemma no_cast_rows_idle schema df :
  cast_logs df schema = [] ->
  forall col props series target,
    (col, props) ∈ schema ->
    get_column df col = Some series ->
    type_map (p_type props) = Some target -> dtype series = target.
Proof.
  induction schema as [|[col' props'] rest IH];
    intros Hnil col props series target Hin.
  { by apply elem_of_nil in Hin. }
  cbn [cast_logs] in Hnil. apply app_eq_nil in Hnil as [Hhead Hrest].
  destruct (cast_step_cases df [] col' props')
    as [[Hsame Htyped]|(s0 & t0 & e0 & _ & _ & _ & _ & _ & Hcast)].
  - rewrite Hsame in Hrest. cbn [fst] in Hrest.
    apply elem_of_cons in Hin as [[= -> ->]|Hin]; [apply Htyped|by apply IH].
  - rewrite Hcast in Hhead. by destruct (app_cons_not_nil _ _ _ (eq_sym Hhead)).
Qed.

(** X6. The harmonization report is empty exactly when the table is
    settled: no schema column is missing while one of its aliases is
    present, and every present schema column of known type already has
    its target physical type.  In that case [harmonize] returns the table
    it was given. *)
Theorem harmonize_empty_report schema df :
  ((harmonize schema df).2 = [] <-> settled schema df)
  ∧ ((harmonize schema df).2 = [] -> (harmonize schema df).1 = df).
Proof.
  assert ((harmonize schema df).2 = [] -> settled schema df) as Hsettled.
  { rewrite harmonize_report. intros [Hrenames Hcasts]%app_eq_nil.
    pose proof (no_rename_rows_idle schema df Hrenames) as Hidle.
    assert (renamed_table schema df = df) as Hsame.
    { unfold renamed_table, resolve_renames.
      rewrite resolve_fold_idle by done. unfold apply_renames.
      by rewrite decide_True. }
    rewrite Hsame in Hcasts. intros col props Hin. split; [by apply Hidle|].
    intros series target. by apply (no_cast_rows_idle schema df Hcasts). }
  split; [split; [done|]|].
  - intros Hs. by rewrite settled_fixpoint.
  - intros Hs%Hsettled. by rewrite settled_fixpoint.
Qed.

(** X7. Harmonizing a harmonized table a second time changes nothing and
    logs nothing, provided no schema column that is still missing from
    the harmonized table has an alias among its columns. *)
Theorem harmonize_idempotent schema df :
  wf_schema schema ->
  (forall col props,
     (col, props) ∈ schema ->
     col ∈ columns (harmonize schema df).1
     ∨ Forall (fun a => a ∉ columns (harmonize schema df).1)
         (default [] (p_aliases props))) ->
  harmonize schema (harmonize schema df).1 = ((harmonize schema df).1, []).
Proof.
  intros Hwf Hidle. apply settled_fixpoint. intros col props Hin.
  split; [by apply Hidle|]. intros series target Hget Hmap.
  rewrite harmonize_fst in Hget.
  rewrite (cast_fold_column schema _ _ col props) in Hget by done.
  rewrite Hmap in Hget.
  destruct (get_column (renamed_table schema df) col) as [s|]; [|done].
  case_decide; by injection Hget as <-.
Qed.

(** X8. The report lists the renames first and the casts after them, each
    group in schema declaration order with at most one row per schema
    column: the report is [renames ++ casts] where every row of [renames]
    has action [Rename], every row of [casts] has action [Cast Fail] or
    [Cast Success], and the columns named by each group form a
    subsequence of the schema's keys. *)
Theorem harmonize_report_order schema df :
  ∃ renames casts,
    (harmonize schema df).2 = renames ++ casts
    ∧ Forall (fun e => action e = "Rename") renames
    ∧ Forall (fun e => action e = "Cast Fail" ∨ action e = "Cast Success")
        casts
    ∧ map column renames `sublist_of` map fst schema
    ∧ map column casts `sublist_of` map fst schema.
Proof.
  rewrite harmonize_report.
  eexists _, _. split; [reflexivity|].
  split; [|split; [|split]].
  - apply Forall_forall. intros x Hx.
    apply list_elem_of_In, in_flat_map in Hx as (e & _ & Hx).
    by apply list_elem_of_In, resolve_column_key in Hx as [_ ?].
  - generalize (renamed_table schema df).
    induction schema as [|[col props] rest IH]; intros df0; [constructor|].
    cbn [cast_logs]. apply Forall_app. split; [|apply IH].
    destruct (cast_step_cases df0 [] col props)
      as [[-> _]|(s0 & t0 & e0 & _ & _ & _ & _ & Hact & ->)]; [constructor|].
    cbn. constructor; [exact Hact|constructor].
  - induction schema as [|[col props] rest IH]; [constructor|].
    cbn [flat_map map fst]. rewrite map_app.
    unfold resolve_column at 1. case_decide; [by apply sublist_cons|].
    destruct (scan_aliases_cases (list_to_set (columns df)) col
                (default [] (p_aliases props)) (∅, []))
      as [[_ ->]|(pre & alias & post & _ & _ & _ & ->)];
      [by apply sublist_cons|].
    cbn. by apply sublist_skip.
  - generalize (renamed_table schema df).
    induction schema as [|[col props] rest IH]; intros df0; [constructor|].
    cbn [cast_logs map fst]. rewrite map_app.
    destruct (cast_step_cases df0 [] col props)
      as [[-> _]|(s0 & t0 & e0 & _ & _ & _ & Hcol & _ & ->)];
      [apply sublist_cons, IH|].
    cbn. rewrite Hcol. apply sublist_skip, IH.
Qed.

End idle_runs.

(** ** What the validator guarantees *)

Section validator_guarantees.
Context `{Backend}.
Import DataValidator.

Lemma findings_of_absent schema df col chk :
  col ∉ map fst schema -> findings_of col chk (validate schema df) = [].
Proof.
  intros Hcol. unfold findings_of. rewrite validate_flat.
  by apply (filter_key_absent variable (fun f => check f = chk) _
              (validate_column_key df)).
Qed.

(** Each check of a present column appends at most one finding. *)
Lemma checks_at_most_one df col props series :
  (length (type_check col props series) ≤ 1
   ∧ length (range_check df col props series) ≤ 1
   ∧ length (allowed_check df col props series) ≤ 1
   ∧ length (forbidden_check df col props series) ≤ 1
   ∧ length (regex_check df col props series) ≤ 1)%nat.
Proof.
  unfold type_check, range_check, allowed_check, forbidden_check, regex_check.
  split_and!; repeat (case_match || case_decide); cbn; lia.
Qed.

(** The two type tables agree: they know the same type strings, and the
    physical type the harmonizer casts to is one the validator accepts. *)
Lemma type_tables_agree type_str :
  match DataHarmonizer.type_map type_str, polars_dtypes type_str with
  | Some target, Some valid_types => dtype_class target ∈ valid_types
  | None, None => True
  | _, _ => False
  end.
Proof.
  unfold DataHarmonizer.type_map, polars_dtypes.
  repeat case_match; simplify_eq; try done; set_solver.
Qed.

(** X9. For every schema column present in the table, the report has a
    [Type] finding for it exactly when its declared type is one of the
    five known type strings and the class of the column's physical type
    is not among the classes accepted for that string; the finding names
    the declared type and the actual physical type as the engine prints
    it, parameters included.  An unknown or missing type string gives no
    [Type] finding, and neither does a column absent from the table. *)
Theorem type_finding schema df col props :
  wf_schema schema -> (col, props) ∈ schema ->
  findings_of col "Type" (validate schema df)
  = match get_column df col, polars_dtypes (p_type props) with
    | Some series, Some valid_types =>
        if decide (dtype_class (dtype series) ∈ valid_types) then []
        else
          [mkFinding col "Type"
             ("Expected " ++ default "None" (p_type props) ++ ", got "
                ++ dtype_name (dtype series))
             "N/A"]
    | _, _ => []
    end.
Proof.
  intros Hwf Hin.
  rewrite (findings_of_validate schema df col props) by done.
  destruct (get_column df col) as [series|] eqn:Hget.
  - rewrite (findings_of_present df col props series) by done.
    rewrite decide_True by done. rewrite !decide_False by done.
    rewrite !app_nil_r. unfold type_check.
    destruct (polars_dtypes (p_type props)) as [valid_types|]; [|done].
    by repeat case_decide.
  - unfold findings_of, validate_column. rewrite Hget.
    case_match; [|done]. by rewrite filter_cons_False by (intros [_ [=]]).
Qed.

(** X10. For every schema column present in a well-shaped table that
    declares a range [[low, high]], the report has one [Range] finding
    for it exactly when some row holds a non-null value below [low] or
    above [high]; the finding gives the number of such rows, the two
    bounds, and examples drawn from those rows. *)
Theorem range_finding schema df col props series low high :
  wf_schema schema -> wf_df df -> (col, props) ∈ schema ->
  get_column df col = Some series ->
  p_range props = Some (low, high) ->
  findings_of col "Range" (validate schema df)
  = if decide (filter (out_of_range low high) (values series) = []) then []
    else
      [mkFinding col "Range"
         (pretty (length (filter (out_of_range low high) (values series)))
            ++ " rows outside [" ++ py_str low ++ ", " ++ py_str high ++ "]")
         (_get_example_msg
            [mkSeries col (dtype series)
               (filter (out_of_range low high) (values series))] col)].
Proof.
  intros Hwf Hwfdf Hin Hget Hrange.
  rewrite (findings_of_validate schema df col props) by done.
  rewrite (findings_of_present df col props series) by done.
  rewrite decide_False by done. rewrite decide_True by done.
  rewrite !decide_False by done. cbn [app]. rewrite app_nil_r.
  unfold range_check. rewrite Hrange.
  rewrite (quality_finding (range_pred low high) series df col "Range"
             (fun n => (pretty n ++ " rows outside [" ++ py_str low ++ ", "
                        ++ py_str high ++ "]")%string)) by done.
  by rewrite (list_filter_iff _ (out_of_range low high))
    by (intros c; apply range_pred_true).
Qed.

(** X11. With unique schema keys, the report holds at most one finding
    for any pair of a column name and a check name. *)
Theorem one_finding_per_check schema df col chk :
  wf_schema schema ->
  (length (findings_of col chk (validate schema df)) ≤ 1)%nat.
Proof.
  intros Hwf.
  destruct (decide (col ∈ map fst schema)) as [Hcol|Hcol].
  2:{ rewrite findings_of_absent by done. cbn. lia. }
  change (map fst schema) with (fst <$> schema) in Hcol.
  apply list_elem_of_fmap in Hcol as ([col' props] & -> & Hin). cbn [fst].
  rewrite (findings_of_validate schema df col' props) by done.
  destruct (get_column df col') as [series|] eqn:Hget.
  - rewrite (findings_of_present df col' props series) by done.
    destruct (checks_at_most_one df col' props series)
      as (Ht & Hr & Ha & Hf & Hx).
    rewrite !length_app.
    repeat case_decide; simplify_eq; cbn [length]; lia.
  - unfold findings_of, validate_column. rewrite Hget.
    etransitivity; [apply length_filter|]. case_match; cbn; lia.
Qed.

(** X12. The validator reports only on schema columns and only under its
    six check names: every finding's [variable] is a key of the schema
    and its [check] is one of [Existence], [Type], [Range],
    [Allowed Values], [Forbidden Values], [Regex]. *)
Theorem findings_within_schema schema df f :
  f ∈ validate schema df ->
  variable f ∈ map fst schema
  ∧ check f ∈ ["Existence"; "Type"; "Range"; "Allowed Values";
               "Forbidden Values"; "Regex"].
Proof.
  rewrite validate_flat. intros Hf.
  apply list_elem_of_In, in_flat_map in Hf as ([col props] & Hin & Hf).
  apply list_elem_of_In in Hin, Hf. split.
  - apply validate_column_key in Hf as ->.
    by apply (list_elem_of_fmap_2 fst _ (col, props)).
  - unfold validate_column in Hf.
    destruct (get_column df col) as [series|].
    + rewrite !elem_of_app in Hf.
      destruct Hf as [Hf%type_check_key|[Hf%range_check_key|
        [Hf%allowed_check_key|[Hf%forbidden_check_key|Hf%regex_check_key]]]];
        destruct Hf as [_ ->]; set_solver.
    + case_match; [|by apply elem_of_nil in Hf].
      apply list_elem_of_singleton in Hf as ->. set_solver.
Qed.

(** X13. Findings come in schema declaration order: the report for a
    schema [s1 ++ s2] is the report for [s1] followed by the report for
    [s2]; and within one column the findings follow the order
    [Existence], [Type], [Range], [Allowed Values], [Forbidden Values],
    [Regex]. *)
Theorem validate_order (s1 s2 : Schema) df :
  validate (s1 ++ s2) df = validate s1 df ++ validate s2 df
  ∧ forall entry,
      map check (validate_column df entry)
      `sublist_of` ["Existence"; "Type"; "Range"; "Allowed Values";
                    "Forbidden Values"; "Regex"].
Proof.
  split; [by rewrite !validate_flat, flat_map_app|].
  intros [col props]. unfold validate_column.
  destruct (get_column df col) as [series|].
  - apply sublist_cons. rewrite !map_app.
    change ["Type"; "Range"; "Allowed Values"; "Forbidden Values"; "Regex"]
      with (["Type"] ++ ["Range"] ++ ["Allowed Values"]
              ++ ["Forbidden Values"] ++ ["Regex"]).
    repeat apply sublist_app;
      unfold type_check, range_check, allowed_check, forbidden_check,
        regex_check;
      repeat (case_match || case_decide);
      first [apply sublist_nil_l | apply sublist_skip, sublist_nil_l].
  - case_match; [|apply sublist_nil_l].
    cbn. apply sublist_skip, sublist_nil_l.
Qed.

End validator_guarantees.

(** ** Validation and the rest of the table *)

Section validation_frame.
Context `{Backend}.
Import DataValidator.

(** The finding of a quality check is the same on two well-shaped tables
    that hold the same column under the checked name. *)
Lemma quality_finding_local pred series (df df' : DataFrame) col chk
    (descr : nat -> string) :
  wf_df df -> wf_df df' ->
  get_column df col = Some series -> get_column df' col = Some series ->
  (if decide (height (df_filter pred series df) ≠ 0)
   then [mkFinding col chk (descr (height (df_filter pred series df)))
           (_get_example_msg (df_filter pred series df) col)]
   else [])
  = (if decide (height (df_filter pred series df') ≠ 0)
     then [mkFinding col chk (descr (height (df_filter pred series df')))
             (_get_example_msg (df_filter pred series df') col)]
     else []).
Proof.
  intros Hwf Hwf' Hget Hget'.
  by rewrite !(quality_finding pred series _ col chk descr).
Qed.

Lemma validate_column_local (df df' : DataFrame) col props :
  wf_df df -> wf_df df' -> get_column df col = get_column df' col ->
  validate_column df (col, props) = validate_column df' (col, props).
Proof.
  intros Hwf Hwf' Hsame. unfold validate_column. rewrite <- Hsame.
  destruct (get_column df col) as [series|] eqn:Hget; [|done].
  symmetry in Hsame.
  assert (range_check df col props series = range_check df' col props series)
    as ->.
  { unfold range_check. destruct (p_range props) as [[low high]|]; [|done].
    by apply (quality_finding_local (range_pred low high) series df df' col
                "Range"
                (fun n => (pretty n ++ " rows outside [" ++ py_str low ++ ", "
                           ++ py_str high ++ "]")%string)). }
  assert (allowed_check df col props series
          = allowed_check df' col props series) as ->.
  { unfold allowed_check.
    destruct (p_allowed_value props) as [allowed|]; [|done].
    by apply (quality_finding_local (allowed_pred allowed (dtype series))
                series df df' col "Allowed Values"
                (fun n => (pretty n ++ " rows have invalid values")%string)). }
  assert (forbidden_check df col props series
          = forbidden_check df' col props series) as ->.
  { unfold forbidden_check.
    destruct (p_not_allowed_value props) as [forbidden|]; [|done].
    by apply (quality_finding_local (forbidden_pred forbidden (dtype series))
                series df df' col "Forbidden Values"
                (fun n => (pretty n ++ " rows found in blacklist")%string)). }
  assert (regex_check df col props series = regex_check df' col props series)
    as ->; [|done].
  unfold regex_check. destruct (p_regex props) as [pattern|]; [|done].
  case_decide; [|done].
  by apply (quality_finding_local (regex_pred pattern) series df df' col
              "Regex"
              (fun n => (pretty n ++ " rows mismatch pattern '" ++ pattern
                         ++ "'")%string)).
Qed.

(** X14. The validation report depends on the table only through the
    columns the schema names: two well-shaped tables that hold the same
    column (or both none) under every schema key get the same report. *)
Theorem validate_schema_columns_only schema (df df' : DataFrame) :
  wf_df df -> wf_df df' ->
  (forall col, col ∈ map fst schema -> get_column df col = get_column df' col) ->
  validate schema df = validate schema df'.
Proof.
  intros Hwf Hwf' Hsame. rewrite !validate_flat.
  induction schema as [|[col props] rest IH]; [done|].
  cbn [flat_map]. f_equal.
  - apply validate_column_local; [done..|]. apply Hsame. cbn. left.
  - apply IH. intros c Hc. apply Hsame. cbn. by right.
Qed.

(** X15. Validating the table [harmonize] returns, against the same
    schema, never yields a [Type] finding: every column the harmonizer
    casts ends in a physical type the validator accepts for the declared
    type string, and a type string unknown to one is unknown to the
    other. *)
Theorem no_type_finding_after_harmonize schema df f :
  wf_schema schema ->
  f ∈ validate schema (DataHarmonizer.harmonize schema df).1 ->
  check f ≠ "Type".
Proof.
  intros Hwf Hf Hcheck. rewrite validate_flat in Hf.
  apply list_elem_of_In, in_flat_map in Hf as ([col props] & Hin & Hf).
  apply list_elem_of_In in Hin, Hf. unfold validate_column in Hf.
  destruct (get_column (DataHarmonizer.harmonize schema df).1 col)
    as [series|] eqn:Hget.
  - rewrite !elem_of_app in Hf.
    destruct Hf as [Hf|[Hf%range_check_key|
      [Hf%allowed_check_key|[Hf%forbidden_check_key|Hf%regex_check_key]]]];
      try (destruct Hf as [_ Hk]; by rewrite Hk in Hcheck).
    unfold type_check in Hf.
    pose proof (type_tables_agree (p_type props)) as Hagree.
    destruct (polars_dtypes (p_type props)) as [valid_types|];
      [|by apply elem_of_nil in Hf].
    destruct (DataHarmonizer.type_map (p_type props)) as [target|] eqn:Hmap;
      [|done].
    rewrite harmonize_fst in Hget.
    rewrite (cast_fold_column schema _ _ col props) in Hget by done.
    rewrite Hmap in Hget.
    assert (dtype series = target) as Hdtype.
    { destruct (get_column (renamed_table schema df) col) as [s|]; [|done].
      destruct (decide (dtype s = target)); by injection Hget as <-. }
    rewrite Hdtype in Hf. rewrite decide_False in Hf by (intros Hn; done).
    by apply elem_of_nil in Hf.
  - case_match; [|by apply elem_of_nil in Hf].
    apply list_elem_of_singleton in Hf as ->. done.
Qed.

End validation_frame.

(** ** Which columns the harmonizer makes available *)

Section availability.
Context `{Backend}.
Import DataHarmonizer.

Implicit Types (df_cols : gset string) (st : gmap string string * list ActionLog).

Lemma schema_lookup_unique (schema : Schema) col props props' :
  wf_schema schema -> (col, props) ∈ schema -> (col, props') ∈ schema ->
  props = props'.
Proof.
  unfold wf_schema. induction schema as [|[c p] rest IH]; intros Hnd Hin Hin'.
  { by apply elem_of_nil in Hin. }
  cbn [map fst] in Hnd. apply NoDup_cons in Hnd as [Hfresh Hnd].
  apply elem_of_cons in Hin as [Hin|Hin];
    apply elem_of_cons in Hin' as [Hin'|Hin'].
  - congruence.
  - injection Hin as -> ->. exfalso. apply Hfresh.
    by apply (list_elem_of_fmap_2 fst _ (c, props')).
  - injection Hin' as -> ->. exfalso. apply Hfresh.
    by apply (list_elem_of_fmap_2 fst _ (c, props)).
  - by apply IH.
Qed.

(** A row of the step-1 log names an alias that is a column of the
    table. *)
Lemma resolve_column_row df_cols e x :
  x ∈ (resolve_column df_cols (∅, []) e).2 ->
  ∃ alias,
    alias ∈ df_cols ∧ alias ∈ default [] (p_aliases e.2)
    ∧ x = mkAction "Rename" e.1 ("Renamed from '" ++ alias ++ "'").
Proof.
  destruct e as [col props]. unfold resolve_column.
  case_decide; [by intros ?%elem_of_nil|].
  destruct (scan_aliases_cases df_cols col (default [] (p_aliases props)) (∅, []))
    as [[_ ->]|(pre & alias & post & Hsplit & _ & Halias & ->)]; cbn.
  - by intros ?%elem_of_nil.
  - intros ->%list_elem_of_singleton. exists alias.
    split; [done|]. split; [|done].
    rewrite Hsplit. apply elem_of_app. right. left.
Qed.

(** A pending rename survives the rest of the loop when none of the
    remaining columns declares its alias. *)
Lemma resolve_fold_keeps df_cols (rest : Schema) st alias col :
  st.1 !! alias = Some col -> alias ∉ declared_aliases rest ->
  (foldl (resolve_column df_cols) st rest).1 !! alias = Some col.
Proof.
  revert st. induction rest as [|[c p] rest IH]; intros st Hlook Hfresh;
    [done|].
  cbn [foldl]. unfold declared_aliases in Hfresh. cbn [flat_map snd] in Hfresh.
  apply not_elem_of_app in Hfresh as [Hhere Hrest].
  apply IH; [|done]. unfold resolve_column. case_decide; [done|].
  destruct (scan_aliases_cases df_cols c (default [] (p_aliases p)) st)
    as [[_ ->]|(pre & a & post & Hsplit & _ & _ & ->)]; [done|].
  cbn [fst]. rewrite lookup_insert_ne; [done|].
  intros ->. apply Hhere. rewrite Hsplit. apply elem_of_app. right. left.
Qed.

(** With distinct aliases, a missing canonical column with an alias in
    the table ends up as the target of a pending rename. *)
Lemma resolve_renames_selects schema (df : DataFrame) col props :
  NoDup (declared_aliases schema) -> (col, props) ∈ schema ->
  col ∉ columns df ->
  Exists (fun a => a ∈ columns df) (default [] (p_aliases props)) ->
  ∃ alias,
    alias ∈ columns df ∧ (resolve_renames schema df).1 !! alias = Some col.
Proof.
  intros Hnd Hin Hcol Hsome.
  apply list_elem_of_split in Hin as (before & after & ->).
  unfold resolve_renames. rewrite foldl_app. cbn [foldl].
  set (st := foldl (resolve_column (list_to_set (columns df))) (∅, []) before).
  unfold declared_aliases in Hnd. rewrite flat_map_app in Hnd.
  cbn [flat_map snd] in Hnd.
  apply NoDup_app in Hnd as (_ & _ & Hnd).
  apply NoDup_app in Hnd as (_ & Hdisj & _).
  unfold resolve_column at 2.
  rewrite decide_False by (intros Hc; by apply elem_of_list_to_set in Hc).
  destruct (scan_aliases_cases (list_to_set (columns df)) col
              (default [] (p_aliases props)) st)
    as [[Hnone _]|(pre & alias & post & Hsplit & _ & Halias & ->)].
  - exfalso. apply Exists_exists in Hsome as (a & Ha & Hpresent).
    rewrite Forall_forall in Hnone. apply (Hnone a Ha).
    by apply elem_of_list_to_set.
  - exists alias. split; [by apply elem_of_list_to_set in Halias|].
    apply resolve_fold_keeps.
    + cbn [fst]. by rewrite lookup_insert_eq.
    + apply Hdisj. rewrite Hsplit. apply elem_of_app. right. left.
Qed.

(** A canonical name is never a key of the rename map when no alias is
    also a canonical name. *)
Lemma canonical_not_renamed schema (df : DataFrame) col props :
  wf_schema schema ->
  (forall a, a ∈ declared_aliases schema -> a ∉ map fst schema) ->
  (col, props) ∈ schema ->
  (resolve_renames schema df).1 !! col = None.
Proof.
  intros Hwf Hkeys Hin.
  destruct (resolve_renames_from schema df Hwf) as [Horigin _].
  destruct ((resolve_renames schema df).1 !! col) as [c|] eqn:Hlook; [|done].
  destruct (Horigin col c Hlook) as (props' & Hin' & Halias).
  exfalso. apply (Hkeys col).
  - unfold declared_aliases. apply list_elem_of_In, in_flat_map.
    exists (c, props'). split; by apply list_elem_of_In.
  - by apply (list_elem_of_fmap_2 fst _ (col, props)).
Qed.

(** X16. When no alias is declared twice and no alias is also a canonical
    name, a schema column is a column of the harmonized table exactly
    when the input table has the canonical name or at least one of the
    column's aliases. *)
Theorem harmonize_makes_available schema df col props :
  wf_schema schema -> NoDup (declared_aliases schema) ->
  (forall a, a ∈ declared_aliases schema -> a ∉ map fst schema) ->
  (col, props) ∈ schema ->
  col ∈ columns (harmonize schema df).1
  <-> col ∈ columns df
      ∨ Exists (fun a => a ∈ columns df) (default [] (p_aliases props)).
Proof.
  intros Hwf Hnd Hkeys Hin.
  destruct (resolve_renames_from schema df Hwf) as [Horigin _].
  pose proof (canonical_not_renamed schema df col props Hwf Hkeys Hin)
    as Hcanonical.
  rewrite columns_harmonize.
  change (map ?f ?l) with (f <$> l). rewrite list_elem_of_fmap. split.
  - intros (n & Hn & Hcols).
    destruct ((resolve_renames schema df).1 !! n) as [c|] eqn:Hlook;
      cbn in Hn; subst; [|by left].
    right. destruct (Horigin n c Hlook) as (props' & Hin' & Halias).
    rewrite (schema_lookup_unique schema c props props') by done.
    apply Exists_exists. by exists n.
  - intros Hsome. destruct (decide (col ∈ columns df)) as [Hcol|Hcol].
    + exists col. split; [|done]. by rewrite Hcanonical.
    + destruct Hsome as [?|Hsome]; [done|].
      destruct (resolve_renames_selects schema df col props Hnd Hin Hcol Hsome)
        as (alias & Halias & Hlook).
      exists alias. split; [|done]. by rewrite Hlook.
Qed.

(** X17. Harmonize then validate, under the same conditions on the
    aliases: the validation report holds the [Existence] finding for a
    schema column exactly when the column is not optional and the input
    table has neither its canonical name nor any of its aliases. *)
Theorem existence_after_harmonize schema df col props :
  wf_schema schema -> NoDup (declared_aliases schema) ->
  (forall a, a ∈ declared_aliases schema -> a ∉ map fst schema) ->
  (col, props) ∈ schema ->
  findings_of col "Existence"
    (DataValidator.validate schema (harmonize schema df).1)
  = if decide (col ∈ columns df
               ∨ Exists (fun a => a ∈ columns df)
                   (default [] (p_aliases props)))
    then []
    else if default false (p_optional props) then []
    else [mkFinding col "Existence" "Column not found" "N/A"].
Proof.
  intros Hwf Hnd Hkeys Hin.
  destruct (resolve_renames_from schema df Hwf) as [Horigin _].
  pose proof (canonical_not_renamed schema df col props Hwf Hkeys Hin)
    as Hcanonical.
  rewrite (findings_of_validate schema _ col props) by done.
  destruct (get_column (harmonize schema df).1 col) as [series|] eqn:Hget.
  - rewrite decide_True.
    + rewrite (findings_of_present _ col props series) by done.
      by rewrite !decide_False by done.
    + assert (col ∈ columns (harmonize schema df).1) as Hpresent
        by (apply get_column_is_Some; by rewrite Hget).
      rewrite columns_harmonize in Hpresent.
      change (map ?f ?l) with (f <$> l) in Hpresent.
      apply list_elem_of_fmap in Hpresent as (n & Hn & Hcols).
      destruct ((resolve_renames schema df).1 !! n) as [c|] eqn:Hlook;
        cbn in Hn; subst; [|by left].
      right. destruct (Horigin n c Hlook) as (props' & Hin' & Halias).
      rewrite (schema_lookup_unique schema c props props') by done.
      apply Exists_exists. by exists n.
  - rewrite decide_False.
    2:{ intros Hsome. apply get_column_None in Hget. apply Hget.
        rewrite columns_harmonize. change (map ?f ?l) with (f <$> l).
        apply list_elem_of_fmap.
        destruct (decide (col ∈ columns df)) as [Hcol|Hcol].
        - exists col. split; [|done]. by rewrite Hcanonical.
        - destruct Hsome as [?|Hsome]; [done|].
          destruct (resolve_renames_selects schema df col props Hnd Hin Hcol
                      Hsome) as (alias & Halias & Hlook).
          exists alias. split; [|done]. by rewrite Hlook. }
    unfold findings_of, DataValidator.validate_column. rewrite Hget.
    destruct (default false (p_optional props)); cbn [negb]; [done|].
    by rewrite filter_cons_True.
Qed.

End availability.

(** ** The pending rename of a column *)

Section pending_rename.
Context `{Backend}.
Import DataHarmonizer.

Implicit Types (df_cols : gset string) (st : gmap string string * list ActionLog).

Lemma first_present_unique df_cols aliases a1 a2 :
  first_present df_cols aliases a1 -> first_present df_cols aliases a2 ->
  a1 = a2.
Proof.
  intros (pre1 & post1 & -> & Hpre1 & Hin1) (pre2 & post2 & Heq & Hpre2 & Hin2).
  revert pre2 Heq Hpre2. induction pre1 as [|x pre1 IH]; intros pre2 Heq Hpre2.
  - destruct pre2 as [|y pre2]; cbn in Heq; [congruence|].
    injection Heq as <- _. by apply Forall_cons in Hpre2 as [? _].
  - apply Forall_cons in Hpre1 as [Hx Hpre1].
    destruct pre2 as [|y pre2]; cbn in Heq.
    + injection Heq as -> _. done.
    + injection Heq as <- Heq. apply Forall_cons in Hpre2 as [_ Hpre2].
      by apply (IH Hpre1 pre2).
Qed.

(** One iteration of the rename loop, in terms of the first present
    alias. *)
Lemma resolve_column_step df_cols st col props :
  (col ∈ df_cols ∧ resolve_column df_cols st (col, props) = st)
  ∨ (col ∉ df_cols
     ∧ Forall (fun a => a ∉ df_cols) (default [] (p_aliases props))
     ∧ resolve_column df_cols st (col, props) = st)
  ∨ (∃ alias,
       col ∉ df_cols
       ∧ first_present df_cols (default [] (p_aliases props)) alias
       ∧ resolve_column df_cols st (col, props)
         = (<[alias := col]> st.1,
            st.2 ++ [mkAction "Rename" col
                       ("Renamed from '" ++ alias ++ "'")])).
Proof.
  unfold resolve_column. case_decide as Hcol; [by left|]. right.
  destruct (scan_aliases_cases df_cols col (default [] (p_aliases props)) st)
    as [[Hnone ->]|(pre & alias & post & Hsplit & Hpre & Halias & ->)].
  - by left.
  - right. exists alias. split; [done|]. split; [|done]. by exists pre, post.
Qed.

Lemma resolve_fold_selected df_cols (done_ rest : Schema) st :
  selected_from df_cols done_ st.1 ->
  selected_from df_cols (done_ ++ rest)
    (foldl (resolve_column df_cols) st rest).1.
Proof.
  revert done_ st. induction rest as [|[col props] rest IH];
    intros done_ st Hsel.
  { by rewrite app_nil_r. }
  cbn [foldl].
  replace (done_ ++ (col, props) :: rest)
    with ((done_ ++ [(col, props)]) ++ rest) by (by rewrite <- app_assoc).
  apply IH.
  assert (selected_from df_cols (done_ ++ [(col, props)]) st.1) as Hweak.
  { intros a c Hac. destruct (Hsel a c Hac) as (p & Hp & Ha).
    exists p. split; [|done]. apply elem_of_app. by left. }
  destruct (resolve_column_step df_cols st col props)
    as [[_ ->]|[(_ & _ & ->)|(alias & _ & Hfirst & ->)]]; [done..|].
  cbn [fst]. intros a c. rewrite lookup_insert. case_decide as Heq.
  - intros [= <-]. subst a. exists props. split; [|done].
    apply elem_of_app. right. left.
  - apply Hweak.
Qed.

Lemma resolve_renames_selected schema df :
  selected_from (list_to_set (columns df)) schema (resolve_renames schema df).1.
Proof.
  unfold resolve_renames.
  apply (resolve_fold_selected _ [] schema (∅, [])).
  intros a c Hac. cbn [fst] in Hac. by rewrite lookup_empty in Hac.
Qed.

(** C6. For every schema column and input table.  When the canonical
    name is already a column of the table, the iteration for the column
    leaves the rename map and the log as they are, whatever aliases are
    present: the report has no [Rename] row for the column and the rename
    map has no entry onto it.  When the canonical name is absent, either
    no alias is present, and again nothing is recorded or logged; or the
    aliases split as [pre ++ alias :: post] with no member of [pre]
    present and [alias] present, and then the iteration records the
    pending rename [alias -> col] in the rename map and logs the one row
    [Renamed from 'alias']: the map holds [alias -> col] right after the
    iteration, keeps it to the end of the loop unless a later schema
    column declares the same alias, and never holds another alias for the
    column; the report has exactly that one [Rename] row for the column.
    In every case the column has at most one [Rename] row. *)
Theorem alias_resolution schema df col props :
  wf_schema schema -> (col, props) ∈ schema ->
  (col ∈ columns df ->
     rename_entries col (harmonize schema df).2 = []
     ∧ (forall st,
          resolve_column (list_to_set (columns df)) st (col, props) = st)
     ∧ forall alias, (resolve_renames schema df).1 !! alias ≠ Some col)
  ∧ (col ∉ columns df ->
       (Forall (fun a => a ∉ columns df) (default [] (p_aliases props))
        ∧ rename_entries col (harmonize schema df).2 = []
        ∧ (forall st,
             resolve_column (list_to_set (columns df)) st (col, props) = st)
        ∧ forall alias, (resolve_renames schema df).1 !! alias ≠ Some col)
       ∨ (∃ pre alias post,
            default [] (p_aliases props) = pre ++ alias :: post
            ∧ Forall (fun a => a ∉ columns df) pre
            ∧ alias ∈ columns df
            ∧ rename_entries col (harmonize schema df).2
              = [mkAction "Rename" col ("Renamed from '" ++ alias ++ "'")]
            ∧ (forall st,
                 resolve_column (list_to_set (columns df)) st (col, props)
                 = (<[alias := col]> st.1,
                    st.2 ++ [mkAction "Rename" col
                               ("Renamed from '" ++ alias ++ "'")]))
            ∧ (forall before after,
                 schema = before ++ (col, props) :: after ->
                 (resolve_renames (before ++ [(col, props)]) df).1 !! alias
                 = Some col
                 ∧ (alias ∉ declared_aliases after ->
                    (resolve_renames schema df).1 !! alias = Some col))
            ∧ (forall a,
                 (resolve_renames schema df).1 !! a = Some col -> a = alias)))
  ∧ (length (rename_entries col (harmonize schema df).2) ≤ 1)%nat.
Proof.
  intros Hwf Hin.
  rewrite (rename_entries_harmonize schema df col props) by done.
  pose proof (resolve_renames_selected schema df) as Hsel.
  assert (forall l,
            Forall (fun a => a ∉ (list_to_set (columns df) : gset string)) l
            -> Forall (fun a => a ∉ columns df) l) as Hconv.
  { intros l Hl. eapply Forall_impl; [exact Hl|]. intros a Ha Hin'.
    apply Ha. by apply elem_of_list_to_set. }
  assert (forall a props',
            (resolve_renames schema df).1 !! a = Some col ->
            (col, props') ∈ schema ->
            first_present (list_to_set (columns df))
              (default [] (p_aliases props)) a) as Hmine.
  { intros a props' Ha _. destruct (Hsel a col Ha) as (p & Hp & Hfirst).
    by rewrite (schema_lookup_unique schema col props p). }
  destruct (resolve_column_step (list_to_set (columns df)) (∅, []) col props)
    as [[Hpresent Hidle]|[(Habsent & Hnone & Hidle)
                          |(alias & Habsent & Hfirst & Hstep)]].
  - apply elem_of_list_to_set in Hpresent. rewrite Hidle. cbn [snd length].
    split; [|split; [done|lia]]. intros _. split; [done|]. split.
    + intros st.
      destruct (resolve_column_step (list_to_set (columns df)) st col props)
        as [[_ ->]|[(Hc & _)|(? & Hc & _)]]; [done|..];
        exfalso; apply Hc; by apply elem_of_list_to_set.
    + intros a Ha.
      destruct (Hmine a props Ha Hin) as (pre & post & _ & _ & _).
      apply resolve_renames_pending in Ha as [_ Hnew]. apply Hnew.
      by apply elem_of_list_to_set.
  - assert (col ∉ columns df) as Habsent'.
    { intros ?. apply Habsent. by apply elem_of_list_to_set. }
    rewrite Hidle. cbn [snd length].
    split; [done|]. split; [|lia]. intros _. left.
    split; [by apply Hconv|]. split; [done|]. split.
    + intros st. unfold resolve_column. rewrite decide_False by done.
      by apply scan_aliases_idle.
    + intros a Ha.
      destruct (Hmine a props Ha Hin) as (pre & post & Hsplit & _ & Hpresent).
      rewrite Forall_forall in Hnone. apply (Hnone a); [|done].
      rewrite Hsplit. apply elem_of_app. right. left.
  - assert (col ∉ columns df) as Habsent'.
    { intros ?. apply Habsent. by apply elem_of_list_to_set. }
    rewrite Hstep. cbn [fst snd app length].
    split; [done|]. split; [|lia]. intros _. right.
    destruct Hfirst as (pre & post & Hsplit & Hpre & Halias).
    assert (first_present (list_to_set (columns df))
              (default [] (p_aliases props)) alias) as Hfirst
      by (by exists pre, post).
    assert (forall st,
              resolve_column (list_to_set (columns df)) st (col, props)
              = (<[alias := col]> st.1,
                 st.2 ++ [mkAction "Rename" col
                            ("Renamed from '" ++ alias ++ "'")])) as Hany.
    { intros st.
      destruct (resolve_column_step (list_to_set (columns df)) st col props)
        as [[Hc _]|[(_ & Hn & _)|(alias' & _ & Hfirst' & ->)]].
      - by destruct Habsent.
      - exfalso. rewrite Forall_forall in Hn. apply (Hn alias); [|done].
        rewrite Hsplit. apply elem_of_app. right. left.
      - by rewrite (first_present_unique _ _ _ _ Hfirst Hfirst'). }
    exists pre, alias, post.
    split; [done|]. split; [by apply Hconv|].
    split; [by apply elem_of_list_to_set in Halias|]. split; [done|].
    split; [exact Hany|]. split.
    + intros before after Hschema.
      assert ((resolve_renames (before ++ [(col, props)]) df).1 !! alias
              = Some col) as Hrecorded.
      { unfold resolve_renames. rewrite foldl_app. cbn [foldl].
        rewrite Hany. cbn [fst]. by rewrite lookup_insert_eq. }
      split; [exact Hrecorded|]. intros Hlater.
      rewrite Hschema. unfold resolve_renames.
      replace (before ++ (col, props) :: after)
        with ((before ++ [(col, props)]) ++ after)
        by (by rewrite <- app_assoc).
      rewrite foldl_app. by apply resolve_fold_keeps.
    + intros a Ha. symmetry.
      by apply (first_present_unique _ _ _ _ Hfirst (Hmine a props Ha Hin)).
Qed.

End pending_rename.

(** ** The pipeline of [main] with lower-cased column names *)

Section main_facts.
Context `{Backend} `{Host}.

Lemma columns_set_columns names (df df' : DataFrame) :
  length names = length df -> set_columns names df = Some df' ->
  columns df' = names.
Proof.
  unfold set_columns. case_decide; [|done]. intros Hlen [= <-].
  unfold columns. clear -Hlen. revert df Hlen.
  induction names as [|n names IH]; intros [|s df] Hlen; try done.
  cbn. f_equal. apply IH. by injection Hlen.
Qed.

(** X18. In [main] the column names are lower-cased before the table is
    harmonized, so every [Rename] row of the harmonization report names,
    as the source alias, the lower-cased form of one of the original
    column names: an alias as written in the schema is selected only if
    it equals that lower-cased form. *)
Theorem main_aliases_lower_cased fs schema_path df result e :
  main fs schema_path df = inr result ->
  e ∈ harm_report result -> action e = "Rename" ->
  ∃ alias n,
    n ∈ columns df ∧ alias = str_lower n
    ∧ details e = ("Renamed from '" ++ alias ++ "'")%string.
Proof.
  unfold main. intros Hmain He Haction.
  destruct (DataHarmonizer.__init__ fs schema_path) as [?|harmonizer];
    [done|].
  destruct (DataValidator.__init__ fs schema_path) as [?|validator]; [done|].
  destruct (set_columns (map str_lower (columns df)) df) as [df_low|] eqn:Hset;
    [|done].
  unfold DataHarmonizer.harmonize_self in Hmain.
  destruct (schema_items harmonizer) as [?|schema]; [done|].
  destruct (DataHarmonizer.harmonize schema df_low) as [clean report]
    eqn:Hharm.
  destruct (DataValidator.validate_self validator clean) as [?|errors];
    [done|].
  injection Hmain as <-. cbn [harm_report] in He.
  assert (report = (DataHarmonizer.harmonize schema df_low).2) as ->
    by (by rewrite Hharm).
  rewrite harmonize_report in He. apply elem_of_app in He as [He|He].
  - apply list_elem_of_In, in_flat_map in He as (entry & _ & He).
    apply list_elem_of_In, resolve_column_row in He
      as (alias & Halias & _ & ->).
    apply elem_of_list_to_set in Halias.
    rewrite (columns_set_columns (map str_lower (columns df)) df df_low)
      in Halias; [|unfold columns; by rewrite !length_map|done].
    change (map ?f ?l) with (f <$> l) in Halias.
    apply list_elem_of_fmap in Halias as (n & -> & Hn).
    by exists (str_lower n), n.
  - by apply cast_logs_key in He as [_ ?].
Qed.

End main_facts.

(** ** The further properties at the sample data *)

Section further_witnesses.
#[local] Existing Instance Reference.backend.
#[local] Existing Instance ReferenceHost.host.
Import Samples MoreSamples.

Lemma ref_cast_keeps_length from to_ (cells : list Cell) :
  length (cast_values from to_ cells) = length cells.
Proof. apply length_map. Qed.

Lemma people_aliases_distinct : NoDup (declared_aliases people_schema).
Proof. by apply NoDup_by_decide. Qed.

Lemma people_aliases_not_keys a :
  a ∈ declared_aliases people_schema -> a ∉ map fst people_schema.
Proof.
  intros Ha. apply (bool_decide_eq_false_1 _).
  cbn in Ha. repeat (apply elem_of_cons in Ha as [->|Ha]); [done..|].
  by apply elem_of_nil in Ha.
Qed.

Lemma alias_resolution_witness :
  wf_schema people_schema
  ∧ ("age", age_props) ∈ people_schema
  ∧ ("age" ∉ columns people_df)
  ∧ rename_entries "age"
      (DataHarmonizer.harmonize people_schema people_df).2
    = [mkAction "Rename" "age" "Renamed from 'Age'"]
  ∧ (DataHarmonizer.resolve_renames people_schema people_df).1 !! "Age"
    = Some "age"
  ∧ forall a,
      (DataHarmonizer.resolve_renames people_schema people_df).1 !! a
      = Some "age" ->
      a = "Age".
Proof.
  assert (wf_schema people_schema) as Hwf by exact people_schema_wf.
  assert (("age", age_props) ∈ people_schema) as Hin by left.
  assert ("age" ∉ columns people_df) as Habsent.
  { apply (bool_decide_eq_false_1 _). vm_compute. reflexivity. }
  split; [exact Hwf|]. split; [exact Hin|]. split; [exact Habsent|].
  destruct (alias_resolution people_schema people_df "age" age_props Hwf Hin)
    as (_ & Hscan & _).
  destruct (Hscan Habsent) as [[Hnone _]|Hfound].
  { exfalso. apply Forall_cons in Hnone as [Hno _]. apply Hno. left. }
  destruct Hfound
    as (pre & alias & post & Hsplit & Hpre & _ & Hrow & _ & Hmap & Honly).
  assert (alias = "Age") as ->.
  { destruct pre as [|a pre]; cbn in Hsplit.
    - by injection Hsplit as <- _.
    - injection Hsplit as <- _. apply Forall_cons in Hpre as [Hno _].
      exfalso. apply Hno. left. }
  split; [exact Hrow|]. split; [|exact Honly].
  apply (Hmap [] (tail people_schema) eq_refl).
  apply (bool_decide_eq_false_1 _). vm_compute. reflexivity.
Defined.

Lemma harmonize_distinct_columns_witness :
  wf_schema people_schema
  ∧ NoDup (columns people_df)
  ∧ NoDup (columns (DataHarmonizer.harmonize people_schema people_df).1).
Proof.
  assert (NoDup (columns people_df)) as Hnd by (by apply NoDup_by_decide).
  split; [exact people_schema_wf|]. split; [exact Hnd|].
  exact (harmonize_distinct_columns people_schema people_df
           people_schema_wf Hnd).
Defined.

Lemma harmonize_keeps_shape_witness :
  wf_df people_df
  ∧ height (DataHarmonizer.harmonize people_schema people_df).1 = 4
  ∧ length (DataHarmonizer.harmonize people_schema people_df).1 = 5.
Proof.
  split; [exact people_df_wf|].
  destruct (harmonize_keeps_shape people_schema people_df
              ref_cast_keeps_length people_df_wf) as (_ & Hheight & Hlength).
  split; [exact Hheight|exact Hlength].
Defined.

Lemma harmonize_other_columns_witness :
  wf_schema people_schema
  ∧ ("comment" ∉ map fst people_schema)
  ∧ ("comment" ∉ declared_aliases people_schema)
  ∧ get_column (DataHarmonizer.harmonize people_schema people_df_extra).1
      "comment"
    = Some (mkSeries "comment" String_
              [Some (VStr "a"); None; Some (VStr "b"); Some (VStr "c")]).
Proof.
  assert ("comment" ∉ map fst people_schema) as Hkey.
  { apply (bool_decide_eq_false_1 _). vm_compute. reflexivity. }
  assert ("comment" ∉ declared_aliases people_schema) as Halias.
  { apply (bool_decide_eq_false_1 _). vm_compute. reflexivity. }
  split; [exact people_schema_wf|]. split; [exact Hkey|].
  split; [exact Halias|].
  etransitivity.
  - exact (harmonize_other_columns people_schema people_df_extra "comment"
             people_schema_wf Hkey Halias).
  - vm_compute. reflexivity.
Defined.

Lemma harmonize_target_types_witness :
  wf_schema people_schema
  ∧ ("age", age_props) ∈ people_schema
  ∧ DataHarmonizer.type_map (p_type age_props) = Some Int64
  ∧ ∃ series,
      get_column (DataHarmonizer.harmonize people_schema people_df).1 "age"
      = Some series
      ∧ dtype series = Int64.
Proof.
  split; [exact people_schema_wf|]. split; [left|]. split; [reflexivity|].
  eexists. split; [vm_compute; reflexivity|].
  eapply (harmonize_target_types people_schema people_df "age" age_props _
            Int64 people_schema_wf); [left|reflexivity|].
  vm_compute. reflexivity.
Defined.

Lemma unknown_type_skipped_witness :
  wf_schema legacy_schema
  ∧ ("code", legacy_props) ∈ legacy_schema
  ∧ DataHarmonizer.type_map (p_type legacy_props) = None
  ∧ cast_entries "code" (DataHarmonizer.harmonize legacy_schema legacy_df).2
    = []
  ∧ get_column (DataHarmonizer.harmonize legacy_schema legacy_df).1 "code"
    = Some (mkSeries "code" Int64 [Some (VInt 7); None]).
Proof.
  assert (wf_schema legacy_schema) as Hwf by (by apply NoDup_by_decide).
  assert (("code", legacy_props) ∈ legacy_schema) as Hin by left.
  split; [exact Hwf|]. split; [exact Hin|]. split; [reflexivity|].
  destruct (unknown_type_skipped legacy_schema legacy_df "code" legacy_props
              Hwf Hin eq_refl) as [Hlog Hcol].
  split; [exact Hlog|]. etransitivity; [exact Hcol|]. reflexivity.
Defined.

Lemma harmonize_idempotent_witness :
  wf_schema people_schema
  ∧ DataHarmonizer.harmonize people_schema
      (DataHarmonizer.harmonize people_schema people_df).1
    = ((DataHarmonizer.harmonize people_schema people_df).1, []).
Proof.
  split; [exact people_schema_wf|].
  apply (harmonize_idempotent people_schema people_df people_schema_wf).
  intros col props Hin.
  repeat (apply elem_of_cons in Hin as [Hin|Hin];
          [injection Hin as -> ->|]);
    [| | | | | |by apply elem_of_nil in Hin].
  - left. apply (bool_decide_eq_true_1 _). vm_compute. reflexivity.
  - left. apply (bool_decide_eq_true_1 _). vm_compute. reflexivity.
  - left. apply (bool_decide_eq_true_1 _). vm_compute. reflexivity.
  - left. apply (bool_decide_eq_true_1 _). vm_compute. reflexivity.
  - right. constructor.
  - right. constructor.
Defined.

Lemma type_finding_witness :
  wf_schema stamps_schema
  ∧ ("seen", mkProps (Some "integer") None None None None None None)
    ∈ stamps_schema
  ∧ findings_of "seen" "Type"
      (DataValidator.validate stamps_schema stamps_df)
    = [mkFinding "seen" "Type"
         "Expected integer, got Datetime(time_unit='us', time_zone=None)"
         "N/A"].
Proof.
  assert (wf_schema stamps_schema) as Hwf by (by apply NoDup_by_decide).
  split; [exact Hwf|]. split; [left|].
  etransitivity.
  - eapply (type_finding stamps_schema stamps_df "seen" _ Hwf). left.
  - vm_compute. reflexivity.
Defined.

Lemma range_finding_witness :
  wf_schema scenario_schema
  ∧ wf_df scenario_clean
  ∧ ("age", scenario_age_props) ∈ scenario_schema
  ∧ findings_of "age" "Range"
      (DataValidator.validate scenario_schema scenario_clean)
    = [mkFinding "age" "Range" "2 rows outside [0, 120]" "200, -5"].
Proof.
  assert (wf_schema scenario_schema) as Hwf by (by apply NoDup_by_decide).
  assert (wf_df scenario_clean) as Hdf by (by apply wf_by_decide).
  split; [exact Hwf|]. split; [exact Hdf|]. split; [left|].
  etransitivity.
  - eapply (range_finding scenario_schema scenario_clean "age"
              scenario_age_props _ (VInt 0) (VInt 120) Hwf Hdf);
      [left|reflexivity|reflexivity].
  - vm_compute. reflexivity.
Defined.

Lemma one_finding_per_check_witness :
  wf_schema people_schema
  ∧ (length (findings_of "level" "Allowed Values"
               (DataValidator.validate people_schema people_df)) ≤ 1)%nat.
Proof.
  split; [exact people_schema_wf|].
  exact (one_finding_per_check people_schema people_df "level"
           "Allowed Values" people_schema_wf).
Defined.

Lemma findings_within_schema_witness :
  mkFinding "email" "Regex" "1 rows mismatch pattern '@'" "nope"
    ∈ DataValidator.validate people_schema people_df
  ∧ "email" ∈ map fst people_schema.
Proof.
  assert (mkFinding "email" "Regex" "1 rows mismatch pattern '@'" "nope"
            ∈ DataValidator.validate people_schema people_df) as Hf.
  { apply (bool_decide_eq_true_1 _). vm_compute. reflexivity. }
  split; [exact Hf|].
  exact (proj1 (findings_within_schema people_schema people_df _ Hf)).
Defined.

Lemma validate_schema_columns_only_witness :
  wf_df people_df
  ∧ wf_df people_df_extra
  ∧ DataValidator.validate people_schema people_df
    = DataValidator.validate people_schema people_df_extra.
Proof.
  assert (wf_df people_df_extra) as Hextra by (by apply wf_by_decide).
  split; [exact people_df_wf|]. split; [exact Hextra|].
  apply (validate_schema_columns_only people_schema people_df people_df_extra
           people_df_wf Hextra).
  intros col Hcol. cbn in Hcol.
  repeat (apply elem_of_cons in Hcol as [->|Hcol]); [reflexivity..|].
  by apply elem_of_nil in Hcol.
Defined.

Lemma no_type_finding_after_harmonize_witness :
  wf_schema scenario_schema
  ∧ mkFinding "age" "Range" "2 rows outside [0, 120]" "200, -5"
      ∈ DataValidator.validate scenario_schema
          (DataHarmonizer.harmonize scenario_schema scenario_df).1
  ∧ check (mkFinding "age" "Range" "2 rows outside [0, 120]" "200, -5")
    ≠ "Type".
Proof.
  assert (wf_schema scenario_schema) as Hwf by (by apply NoDup_by_decide).
  assert (mkFinding "age" "Range" "2 rows outside [0, 120]" "200, -5"
            ∈ DataValidator.validate scenario_schema
                (DataHarmonizer.harmonize scenario_schema scenario_df).1)
    as Hf.
  { apply (bool_decide_eq_true_1 _). vm_compute. reflexivity. }
  split; [exact Hwf|]. split; [exact Hf|].
  exact (no_type_finding_after_harmonize scenario_schema scenario_df _ Hwf Hf).
Defined.

Lemma harmonize_makes_available_witness :
  wf_schema people_schema
  ∧ NoDup (declared_aliases people_schema)
  ∧ ("age", age_props) ∈ people_schema
  ∧ "age" ∈ columns (DataHarmonizer.harmonize people_schema people_df).1.
Proof.
  assert (("age", age_props) ∈ people_schema) as Hin by left.
  split; [exact people_schema_wf|]. split; [exact people_aliases_distinct|].
  split; [exact Hin|].
  apply (harmonize_makes_available people_schema people_df "age" age_props
           people_schema_wf people_aliases_distinct people_aliases_not_keys
           Hin).
  right. apply Exists_cons_hd. left.
Defined.

Lemma existence_after_harmonize_witness :
  wf_schema people_schema
  ∧ NoDup (declared_aliases people_schema)
  ∧ ("id", id_props) ∈ people_schema
  ∧ findings_of "id" "Existence"
      (DataValidator.validate people_schema
         (DataHarmonizer.harmonize people_schema people_df).1)
    = [mkFinding "id" "Existence" "Column not found" "N/A"].
Proof.
  assert (("id", id_props) ∈ people_schema) as Hin.
  { do 4 right. left. }
  split; [exact people_schema_wf|]. split; [exact people_aliases_distinct|].
  split; [exact Hin|].
  etransitivity.
  - exact (existence_after_harmonize people_schema people_df "id" id_props
             people_schema_wf people_aliases_distinct people_aliases_not_keys
             Hin).
  - vm_compute. reflexivity.
Defined.

Lemma main_aliases_lower_cased_witness :
  ∃ result,
    main fs_years "data_schema.yaml" shouting_df = inr result
    ∧ mkAction "Rename" "years_old" "Renamed from 'age'" ∈ harm_report result
    ∧ ∃ alias n,
        n ∈ columns shouting_df ∧ alias = str_lower n
        ∧ details (mkAction "Rename" "years_old" "Renamed from 'age'")
          = ("Renamed from '" ++ alias ++ "'")%string.
Proof.
  eexists. split; [vm_compute; reflexivity|].
  assert (mkAction "Rename" "years_old" "Renamed from 'age'"
            ∈ [mkAction "Rename" "years_old" "Renamed from 'age'"]) as He
    by left.
  split; [exact He|].
  eapply (main_aliases_lower_cased fs_years "data_schema.yaml" shouting_df);
    [vm_compute; reflexivity|exact He|reflexivity].
Defined.

Lemma rename_rows_match_renames_witness :
  NoDup (declared_aliases people_schema)
  ∧ NoDup (columns people_df)
  ∧ length (filter (fun e => action e = "Rename")
              (DataHarmonizer.harmonize people_schema people_df).2)
    = renamed_columns people_df
        (DataHarmonizer.harmonize people_schema people_df).1.
Proof.
  assert (NoDup (columns people_df)) as Hnd by (by apply NoDup_by_decide).
  split; [exact people_aliases_distinct|]. split; [exact Hnd|].
  exact (rename_rows_match_renames people_schema people_df
           people_aliases_distinct Hnd).
Defined.

End further_witnesses.
